(** * The segment pipeline of [main.py]

    A shallow embedding of the segment-processing core of [src/main.py]:
    the generic [pipe] combinator, the six stages [main] runs through it
    (frame attachment, key-frame selection, speaker detection, quadrant
    crop, style transfer, packaging; the collaborators they call are
    parameters), together with the Python and numpy primitives these
    rely on (exceptions, [int], floor division, slice bounds, integer
    indexing, [random.randint], basic slicing of a rank-3 array).

    Layout: Part I holds the model, Part II the properties. *)

From Stdlib Require Import ZArith QArith Lia Lqa.
From stdpp Require Import base list functions.

Local Open Scope Z_scope.

(* ===================================================================== *)
(** * Part I.  The model                                                  *)
(* ===================================================================== *)

(** ** Python primitives *)

Module Py.

(** Exceptions.  [ValueError] and [AttributeError] are the built-in
    exceptions the stages modelled below can raise; [IndexError] and
    [TypeError] stand for what other stages may raise.
    [EmptySegmentError] and [InvalidBoundingBoxError] are the error kinds
    the specification names; no statement of [main.py] raises them. *)
Inductive exn : Type :=
  | ValueError
  | AttributeError
  | IndexError
  | TypeError
  | EmptySegmentError
  | InvalidBoundingBoxError.

(** The result of evaluating a Python expression or call: a value, or a
    raised exception. *)
Inductive result (A : Type) : Type :=
  | Ok (a : A)
  | Raise (e : exn).
Arguments Ok {A} a.
Arguments Raise {A} e.

(** Sequencing: [x ← r; k] evaluates [r] and, unless it raised, goes on
    with [k]. *)
#[global] Instance result_ret : MRet result := fun A a => Ok a.
#[global] Instance result_bind : MBind result := fun A B k r =>
  match r with
  | Ok a => k a
  | Raise e => Raise e
  end.

(** Reading an attribute through a reference that may be [None]:
    [None.attr] raises [AttributeError]. *)
Definition attr {A} (o : option A) : result A :=
  match o with
  | Some a => Ok a
  | None => Raise AttributeError
  end.

(** Numbers.  Bounding-box coordinates reach the slices through [int(..)],
    so they are not assumed to be whole: they are modelled as exact
    rationals (a Python [int] is the rational [n # 1]). *)

(** [int(q)]: truncation toward zero. *)
Definition int (q : Q) : Z := Z.quot (Qnum q) (Zpos (Qden q)).

(** [a // b] on integers: floor division. *)
Definition floordiv (a b : Z) : Z := Z.div a b.

(** [q > n] for a number [q] and an integer [n] (Python compares the two
    exactly). *)
Definition gt_int (q : Q) (n : Z) : bool :=
  Z.ltb (n * Zpos (Qden q)) (Qnum q).

(** Slices.  [adjust k n] is the bound CPython computes for an explicit
    slice index [k] on a sequence of length [n] (step 1): a negative index
    counts from the end, and the outcome is clamped to [0..n]. *)
Definition adjust (k : Z) (n : nat) : nat :=
  if Z.ltb k 0
  then Z.to_nat (Z.max 0 (k + Z.of_nat n))
  else Z.to_nat (Z.min k (Z.of_nat n)).

(** Lower and upper bound of [start:stop] on length [n]; an omitted bound
    ([None]) is [0], resp. [n]. *)
Definition slice_lo (start : option Z) (n : nat) : nat :=
  match start with
  | None => 0%nat
  | Some k => adjust k n
  end.

Definition slice_hi (stop : option Z) (n : nat) : nat :=
  match stop with
  | None => n
  | Some k => adjust k n
  end.

(** Number of selected positions; empty when the bounds cross. *)
Definition slice_len (start stop : option Z) (n : nat) : nat :=
  (slice_hi stop n - slice_lo start n)%nat.

(** [l[start:stop]] *)
Definition slice {A} (start stop : option Z) (l : list A) : list A :=
  take (slice_len start stop (length l)) (drop (slice_lo start (length l)) l).

(** [random.randint].  The generator is explicit state: [randbelow n g]
    stands for the library's [_randbelow(n)], drawing from [g] and
    returning the advanced generator. *)
Section Random.
Context {rng : Type} (randbelow : Z -> rng -> Z * rng).

(** [randrange(start, stop)]: raises [ValueError] on an empty range. *)
Definition randrange (start stop : Z) (g : rng) : result (Z * rng) :=
  let width := stop - start in
  if Z.ltb 0 width
  then let (r, g') := randbelow width g in Ok (start + r, g')
  else Raise ValueError.

(** [randint(a, b)] is [randrange(a, b + 1)]. *)
Definition randint (a b : Z) (g : rng) : result (Z * rng) :=
  randrange a (b + 1) g.

End Random.

End Py.

(** ** numpy: a rank-3 array (an image) *)

Module Np.

(** One entry along the last axis: the channel values of a pixel. *)
Definition pixel : Type := list Z.

(** An array of shape [(length rows, dim1, dim2)]: axis 0 indexes [rows],
    axis 1 indexes inside a row.  [dim1] and [dim2] are stored because an
    array keeps them when it has no rows. *)
Record ndarray : Type := mk_ndarray {
  rows : list (list pixel);
  dim1 : nat;
  dim2 : nat
}.

(** Every array numpy builds is rectangular. *)
Definition wf (a : ndarray) : Prop :=
  Forall (fun r => length r = dim1 a) (rows a) /\
  Forall (Forall (fun p : pixel => length p = dim2 a)) (rows a).

(** [a.shape[0]], [a.shape[1]], [a.shape[2]] *)
Definition shape0 (a : ndarray) : Z := Z.of_nat (length (rows a)).
Definition shape1 (a : ndarray) : Z := Z.of_nat (dim1 a).
Definition shape2 (a : ndarray) : Z := Z.of_nat (dim2 a).

(** [a[start:stop, :, :]] *)
Definition getitem0 (start stop : option Z) (a : ndarray) : ndarray :=
  {| rows := Py.slice start stop (rows a);
     dim1 := dim1 a;
     dim2 := dim2 a |}.

(** [a[:, start:stop, :]] *)
Definition getitem1 (start stop : option Z) (a : ndarray) : ndarray :=
  {| rows := map (Py.slice start stop) (rows a);
     dim1 := Py.slice_len start stop (dim1 a);
     dim2 := dim2 a |}.

End Np.

(** ** The records of [structures] *)

(** Modelled from the spec: the bounding-box type that [face_detector]
    returns is not among the sources.  The specification gives it the
    fields [x], [y], [width], [height] and a derived [center]; the rule
    deriving [center] is not stated, so [center] is carried as a field and
    nothing is assumed about it. *)
Module BBox.
Record t : Type := mk {
  x : Q;
  y : Q;
  width : Q;
  height : Q;
  center : Q * Q
}.
End BBox.

(** Modelled from the spec: [ImageData(image_data_matrix, image_subject)],
    the artifact of one segment; its class is not among the sources. *)
Module ImageData.
Record t : Type := mk {
  image_data_matrix : option Np.ndarray;
  image_subject : option BBox.t
}.
End ImageData.

(** Modelled from the spec: the [Segment] class is not among the sources.
    Fields as the specification lists them; a field no stage has written
    yet holds [None].  [frames] is the rank-4 array of the segment's
    frames, indexed by its first axis. *)
Module Segment.
Record t : Type := mk {
  start : Q;
  end_ : Q;
  frames : option (list Np.ndarray);
  keyframe_index : option Z;
  keyframe : option Np.ndarray;
  speaker_location : option (Q * Q);
  speakers_bbox : option BBox.t;
  image : option ImageData.t
}.

(** [segment.keyframe_index = v] *)
Definition set_keyframe_index (v : Z) (s : t) : t :=
  {| start := start s; end_ := end_ s; frames := frames s;
     keyframe_index := Some v;
     keyframe := keyframe s; speaker_location := speaker_location s;
     speakers_bbox := speakers_bbox s; image := image s |}.

(** [segment.keyframe = v] *)
Definition set_keyframe (v : Np.ndarray) (s : t) : t :=
  {| start := start s; end_ := end_ s; frames := frames s;
     keyframe_index := keyframe_index s;
     keyframe := Some v;
     speaker_location := speaker_location s;
     speakers_bbox := speakers_bbox s; image := image s |}.

(** [segment.image = v] *)
Definition set_image (v : ImageData.t) (s : t) : t :=
  {| start := start s; end_ := end_ s; frames := frames s;
     keyframe_index := keyframe_index s; keyframe := keyframe s;
     speaker_location := speaker_location s;
     speakers_bbox := speakers_bbox s;
     image := Some v |}.
End Segment.

(** ** The stages of [main.py] that need no collaborator *)

Import Py.

(** [get_key_frame_index]:
    [segment.keyframe_index = randint(0, segment.frames.shape[0] - 1)] *)
Section KeyFrame.
Context {rng : Type} (randbelow : Z -> rng -> Z * rng).

Definition get_key_frame_index (segment : Segment.t) (g : rng)
  : result (Segment.t * rng) :=
  frames ← attr (Segment.frames segment);
  drawn ← randint randbelow 0 (Z.of_nat (length frames) - 1) g;
  mret (Segment.set_keyframe_index drawn.1 segment, drawn.2).

End KeyFrame.

(** The first [if] of [crop_keyframe], on the value of [segment.keyframe]:
    the crop along axis 0, driven by [center[0]], [x] and [width]. *)
Definition horizontal_pass (bbox : BBox.t) (keyframe : Np.ndarray) : Np.ndarray :=
  let subject_bbox_center := BBox.center bbox in
  if gt_int subject_bbox_center.1 (floordiv (Np.shape0 keyframe) 2)
  then Np.getitem0 None (Some (int (BBox.x bbox + BBox.width bbox)%Q)) keyframe
  else Np.getitem0 (Some (int (BBox.x bbox))) None keyframe.

(** The second [if]: the crop along axis 1, driven by [center[1]], [y] and
    [height]. *)
Definition vertical_pass (bbox : BBox.t) (keyframe : Np.ndarray) : Np.ndarray :=
  let subject_bbox_center := BBox.center bbox in
  if gt_int subject_bbox_center.2 (floordiv (Np.shape1 keyframe) 2)
  then Np.getitem1 None (Some (int (BBox.y bbox + BBox.height bbox)%Q)) keyframe
  else Np.getitem1 (Some (int (BBox.y bbox))) None keyframe.

(** [crop_keyframe].  Each pass reads [segment.keyframe] afresh and
    assigns the slice back to it, so the second pass sees what the first
    one stored. *)
Definition crop_keyframe (segment : Segment.t) : result Segment.t :=
  bbox ← attr (Segment.speakers_bbox segment);
  keyframe ← attr (Segment.keyframe segment);
  let segment := Segment.set_keyframe (horizontal_pass bbox keyframe) segment in
  bbox ← attr (Segment.speakers_bbox segment);
  keyframe ← attr (Segment.keyframe segment);
  let segment := Segment.set_keyframe (vertical_pass bbox keyframe) segment in
  mret segment.

(** [convert_keyframe_to_obj] *)
Definition convert_keyframe_to_obj (segment : Segment.t) : result Segment.t :=
  mret (Segment.set_image
          {| ImageData.image_data_matrix := Segment.keyframe segment;
             ImageData.image_subject := Segment.speakers_bbox segment |}
          segment).

(** ** [pipe] *)

(** A call that runs in a world [W] (the objects it can reach, the random
    generator, ...) either returns a value or raises; in both cases it
    leaves a world behind. *)
Inductive outcome (W A : Type) : Type :=
  | Returned (a : A) (w : W)
  | Raised (e : exn) (w : W).
Arguments Returned {W A} a w.
Arguments Raised {W A} e w.

Definition action (W A : Type) : Type := W -> outcome W A.

#[global] Instance action_ret {W} : MRet (action W) := fun A a w => Returned a w.
#[global] Instance action_bind {W} : MBind (action W) := fun A B k m w =>
  match m w with
  | Returned a w' => k a w'
  | Raised e w' => Raised e w'
  end.

(** [for x in xs: body(x)] *)
Fixpoint for_each {W X} (body : X -> action W unit) (xs : list X) : action W unit :=
  match xs with
  | [] => mret tt
  | x :: rest => body x;; for_each body rest
  end.

Section Pipe.
Context {W ref : Type}.

(** [Callable[[Segment], None]]: called on a reference to a segment. *)
Definition operation : Type := ref -> action W unit.

(** The inner function of [pipe]: the two nested loops, then
    [return segments]. *)
Definition pipeline (functions : list operation) (segments : list ref)
  : action W (list ref) :=
  for_each (fun segment =>
    for_each (fun function : operation => function segment) functions)
    segments;;
  mret segments.

Definition pipe (functions : list operation) : list ref -> action W (list ref) :=
  pipeline functions.

(** The order the specification words: one call per pair, every operation
    in declared order for the first segment, then for the second, ... *)
Definition segment_major (functions : list operation) (segments : list ref)
  : list (ref * operation) :=
  segment ← segments; function ← functions; [(segment, function)].

(** The other nesting, which the specification rules out: every segment
    for the first operation, then for the second, ... *)
Definition stage_major (functions : list operation) (segments : list ref)
  : list (ref * operation) :=
  function ← functions; segment ← segments; [(segment, function)].

(** Performing a list of calls one after the other. *)
Definition run_calls (calls : list (ref * operation)) : action W unit :=
  for_each (fun c : ref * operation => c.2 c.1) calls.

End Pipe.
Arguments operation : clear implicits.

(** Performing a list of calls one after the other, up to the first one
    that raises.  It is defined on its own, by recursion on the list of
    calls, and owes nothing to the loops of [pipeline]. *)
Fixpoint perform {W ref} (calls : list (ref * operation W ref)) (w : W)
  : outcome W unit :=
  match calls with
  | [] => Returned tt w
  | c :: rest =>
      match c.2 c.1 w with
      | Returned _ w' => perform rest w'
      | Raised e w' => Raised e w'
      end
  end.

(** An operation made to keep a log of its calls beside the world it
    runs in: whenever it is called, it runs as before and enters the
    segment it was called on and the number [stage]. *)
Definition logged {W ref} (stage : nat) (function : operation W ref)
  : operation (W * list (ref * nat)) ref :=
  fun segment wl =>
    match function segment wl.1 with
    | Returned _ w' => Returned tt (w', wl.2 ++ [(segment, stage)])
    | Raised e w' => Raised e (w', wl.2 ++ [(segment, stage)])
    end.

(** The pairs of a segment and the number of one of [n] operations, in
    segment-major order: every number in turn with the first segment,
    then with the second, ... *)
Definition segment_major_stages {ref} (n : nat) (segments : list ref)
  : list (ref * nat) :=
  segment ← segments; stage ← seq 0 n; [(segment, stage)].

(** ** The stages as operations on a store of segments *)

(** What a run of [main.py]'s pipeline can reach: the segment objects, by
    reference, and the state of the random generator. *)
Record world (rng : Type) : Type := mk_world {
  objects : nat -> Segment.t;
  generator : rng
}.
Arguments mk_world {rng} objects generator.
Arguments objects {rng} w.
Arguments generator {rng} w.

(** A stage that mutates the segment it is handed: the object behind the
    reference is replaced by its updated state; a raise leaves it as it
    was. *)
Definition in_place {rng} (stage : Segment.t -> result Segment.t)
  : operation (world rng) nat :=
  fun segment w =>
    match stage (objects w segment) with
    | Ok s' => Returned tt (mk_world (<[segment := s']> (objects w)) (generator w))
    | Raise e => Raised e w
    end.

Section Main.
Context {rng : Type} (randbelow : Z -> rng -> Z * rng).

(** The stages that call a collaborator (the video, the face detector,
    the style transfer) are left open. *)
Context (attach_to_segment detect_speaker transfer_keyframe_style
           : operation (world rng) nat).

Definition get_key_frame_index_op : operation (world rng) nat :=
  fun segment w =>
    match get_key_frame_index randbelow (objects w segment) (generator w) with
    | Ok (s', g') => Returned tt (mk_world (<[segment := s']> (objects w)) g')
    | Raise e => Raised e w
    end.

(** The pipeline [main] builds. *)
Definition main_functions : list (operation (world rng) nat) :=
  [ attach_to_segment;
    get_key_frame_index_op;
    detect_speaker;
    in_place crop_keyframe;
    transfer_keyframe_style;
    in_place convert_keyframe_to_obj ].

Definition main_pipeline : list nat -> action (world rng) (list nat) :=
  pipe main_functions.

End Main.

(** A stage that only records that it was called: the world is the log of
    calls, each entry the segment and the number of the stage. *)
Definition recorder (stage : nat) : operation (list (nat * nat)) nat :=
  fun segment log => Returned tt (log ++ [(segment, stage)]).

(** A stage that records its call and then raises. *)
Definition failing_recorder (stage : nat) (e : exn)
  : operation (list (nat * nat)) nat :=
  fun segment log => Raised e (log ++ [(segment, stage)]).

(** ** The stages that call a collaborator *)

(** [a[k]] for an integer [k], on a sequence or along the first axis of
    an array: a negative index counts from the end, and an index outside
    [-n .. n-1] raises [IndexError]. *)
Definition getitem_int {A} (l : list A) (k : Z) : result A :=
  let n := Z.of_nat (length l) in
  let i := if Z.ltb k 0 then k + n else k in
  if (Z.ltb i 0 || Z.leb n i)%bool
  then Raise IndexError
  else match l !! Z.to_nat i with
       | Some x => Ok x
       | None => Raise IndexError
       end.

(** Reading and writing the state an [action] runs in, and calling
    something that returns or raises without touching that state. *)
Definition get_state {W} : action W W := fun w => Returned w w.

Definition modify {W} (f : W -> W) : action W unit := fun w => Returned tt (f w).

Definition call {W A} (r : result A) : action W A :=
  fun w =>
    match r with
    | Ok a => Returned a w
    | Raise e => Raised e w
    end.

(** [segment.frames = v] *)
Definition set_frames (v : list Np.ndarray) (s : Segment.t) : Segment.t :=
  {| Segment.start := Segment.start s; Segment.end_ := Segment.end_ s;
     Segment.frames := Some v;
     Segment.keyframe_index := Segment.keyframe_index s;
     Segment.keyframe := Segment.keyframe s;
     Segment.speaker_location := Segment.speaker_location s;
     Segment.speakers_bbox := Segment.speakers_bbox s;
     Segment.image := Segment.image s |}.

(** [segment.speaker_location = v] *)
Definition set_speaker_location (v : option (Q * Q)) (s : Segment.t) : Segment.t :=
  {| Segment.start := Segment.start s; Segment.end_ := Segment.end_ s;
     Segment.frames := Segment.frames s;
     Segment.keyframe_index := Segment.keyframe_index s;
     Segment.keyframe := Segment.keyframe s;
     Segment.speaker_location := v;
     Segment.speakers_bbox := Segment.speakers_bbox s;
     Segment.image := Segment.image s |}.

(** [segment.speakers_bbox = v] *)
Definition set_speakers_bbox (v : option BBox.t) (s : Segment.t) : Segment.t :=
  {| Segment.start := Segment.start s; Segment.end_ := Segment.end_ s;
     Segment.frames := Segment.frames s;
     Segment.keyframe_index := Segment.keyframe_index s;
     Segment.keyframe := Segment.keyframe s;
     Segment.speaker_location := Segment.speaker_location s;
     Segment.speakers_bbox := v;
     Segment.image := Segment.image s |}.

(** The collaborators are not among the sources; each is taken as a
    function of its arguments that returns or raises.  A stage that
    assigns to the segment before it calls one is an [action] on the
    segment, so that a raise keeps what was assigned before it. *)
Section Stages.

(** [video.get_frames(start, end)] *)
Context (get_frames : Q -> Q -> result (list Np.ndarray)).

(** [FaceDetector()]: the constructor returns a detector or raises; of
    the detector only [find_speaker_face] is used, which returns a pair
    of a location and a box, either of which may be [None]. *)
Context (face_detector
           : result (Np.ndarray -> result (option (Q * Q) * option BBox.t))).

(** [StyleTransfer()]: likewise, a callable from image to image. *)
Context (style_transfer : result (Np.ndarray -> result Np.ndarray)).

(** What [detect_speaker] and [transfer_keyframe_style] do on a segment
    of which a field they read was never assigned depends on the
    [Segment] class (a default of [None] or no attribute at all), which
    is not among the sources: it is left open. *)
Context (detect_unset transfer_unset : action Segment.t unit).

(** [attach_frames(video)], that is the closure [attach_to_segment]:
    [segment.frames = video.get_frames(segment.start, segment.end)] *)
Definition attach_frames (segment : Segment.t) : result Segment.t :=
  frames ← get_frames (Segment.start segment) (Segment.end_ segment);
  mret (set_frames frames segment).

(** [detect_speaker] *)
Definition detect_speaker : action Segment.t unit :=
  find_speaker_face ← call face_detector;
  segment ← get_state;
  match Segment.frames segment, Segment.keyframe_index segment with
  | Some frames, Some keyframe_index =>
      keyframe ← call (getitem_int frames keyframe_index);
      modify (Segment.set_keyframe keyframe);;
      found ← call (find_speaker_face keyframe);
      modify (set_speaker_location found.1);;
      modify (set_speakers_bbox found.2)
  | _, _ => detect_unset
  end.

(** [transfer_keyframe_style] *)
Definition transfer_keyframe_style : action Segment.t unit :=
  transfer_style ← call style_transfer;
  segment ← get_state;
  match Segment.keyframe segment with
  | Some keyframe =>
      styled ← call (transfer_style keyframe);
      modify (Segment.set_keyframe styled)
  | None => transfer_unset
  end.

End Stages.

(** A stage given as an action on the segment, as an operation on the
    store: the object behind the reference takes the state the action
    left, also when it raised. *)
Definition in_object {rng} (stage : action Segment.t unit)
  : operation (world rng) nat :=
  fun segment w =>
    match stage (objects w segment) with
    | Returned _ s' =>
        Returned tt (mk_world (<[segment := s']> (objects w)) (generator w))
    | Raised e s' =>
        Raised e (mk_world (<[segment := s']> (objects w)) (generator w))
    end.

Section MainStages.
Context {rng : Type} (randbelow : Z -> rng -> Z * rng).
Context (get_frames : Q -> Q -> result (list Np.ndarray)).
Context (face_detector
           : result (Np.ndarray -> result (option (Q * Q) * option BBox.t))).
Context (style_transfer : result (Np.ndarray -> result Np.ndarray)).
Context (detect_unset transfer_unset : action Segment.t unit).

(** The six stages of [main], in the order [main] declares them. *)
Definition main_stages : list (operation (world rng) nat) :=
  main_functions randbelow
    (in_place (attach_frames get_frames))
    (in_object (detect_speaker face_detector detect_unset))
    (in_object (transfer_keyframe_style style_transfer transfer_unset)).

(** [pipeline(segments)] in [main]. *)
Definition main_run : list nat -> action (world rng) (list nat) :=
  pipe main_stages.

(** What a segment spanning [start .. end_] looks like once all six
    stages have returned on it: a frame of the video at an index inside
    the frame array was boxed by the detector, cropped around the box and
    styled; [keyframe] and [image] hold the styled crop, and the box is
    the one the detector gave for the frame before cropping. *)
Definition packaged (start end_ : Q) (s : Segment.t) : Prop :=
  exists frames k kf location bbox find transfer styled,
    get_frames start end_ = Ok frames /\
    0 <= k < Z.of_nat (length frames) /\
    frames !! Z.to_nat k = Some kf /\
    face_detector = Ok find /\
    find kf = Ok (location, Some bbox) /\
    style_transfer = Ok transfer /\
    transfer (vertical_pass bbox (horizontal_pass bbox kf)) = Ok styled /\
    s = {| Segment.start := start; Segment.end_ := end_;
           Segment.frames := Some frames;
           Segment.keyframe_index := Some k;
           Segment.keyframe := Some styled;
           Segment.speaker_location := location;
           Segment.speakers_bbox := Some bbox;
           Segment.image :=
             Some {| ImageData.image_data_matrix := Some styled;
                     ImageData.image_subject := Some bbox |} |}.

(** The interval yields at least one frame, and the detector finds a box
    in each of its frames. *)
Definition detectable (start end_ : Q) : Prop :=
  exists frames find,
    get_frames start end_ = Ok frames /\ frames <> [] /\
    face_detector = Ok find /\
    forall kf, kf ∈ frames -> exists location bbox, find kf = Ok (location, Some bbox).

(** The style transfer returns on every image. *)
Definition styles_everything : Prop :=
  exists transfer,
    style_transfer = Ok transfer /\
    forall image, exists styled, transfer image = Ok styled.

End MainStages.

(** ** The window a crop selects *)

(** [a[i, j]] for indices inside the array. *)
Definition pixel_at (a : Np.ndarray) (i j : nat) : option Np.pixel :=
  Np.rows a !! i ≫= fun row => row !! j.

(** The position in the key frame of the pixel that [crop_keyframe]
    moves to [(0, 0)]: on each axis [0] when the pass keeps the part from
    index 0, and the lower slice bound when it keeps the part up to the
    far edge. *)
Definition crop_origin (bbox : BBox.t) (keyframe : Np.ndarray) : nat * nat :=
  (if gt_int (BBox.center bbox).1 (floordiv (Np.shape0 keyframe) 2)
   then 0%nat
   else adjust (int (BBox.x bbox)) (length (Np.rows keyframe)),
   if gt_int (BBox.center bbox).2 (floordiv (Np.shape1 keyframe) 2)
   then 0%nat
   else adjust (int (BBox.y bbox)) (Np.dim1 keyframe)).

(** ** Bounding boxes the specification calls valid *)

(** Positive width and height, and the box inside the raster: [x] runs
    along axis 0, [y] along axis 1, as [crop_keyframe] uses them. *)
Definition valid_bbox (bbox : BBox.t) (keyframe : Np.ndarray) : Prop :=
  (0 <= BBox.x bbox /\ 0 <= BBox.y bbox /\
   0 < BBox.width bbox /\ 0 < BBox.height bbox /\
   BBox.x bbox + BBox.width bbox <= inject_Z (Np.shape0 keyframe) /\
   BBox.y bbox + BBox.height bbox <= inject_Z (Np.shape1 keyframe))%Q.

(** The box that spans the whole frame. *)
Definition full_frame (bbox : BBox.t) (keyframe : Np.ndarray) : Prop :=
  (BBox.x bbox == 0 /\ BBox.y bbox == 0 /\
   BBox.width bbox == inject_Z (Np.shape0 keyframe) /\
   BBox.height bbox == inject_Z (Np.shape1 keyframe))%Q.

(** ** Concrete frames, boxes and segments *)

(** A 4 x 4 frame with one channel; the pixel at [(i, j)] holds [4 i + j]. *)
Definition frame4 : Np.ndarray :=
  {| Np.rows := [ [[0]; [1]; [2]; [3]];
                  [[4]; [5]; [6]; [7]];
                  [[8]; [9]; [10]; [11]];
                  [[12]; [13]; [14]; [15]] ];
     Np.dim1 := 4;
     Np.dim2 := 1 |}.

(** A frame of a single pixel. *)
Definition frame1 : Np.ndarray :=
  {| Np.rows := [ [[7]] ]; Np.dim1 := 1; Np.dim2 := 1 |}.

(** A 2 x 2 box in the middle of [frame4]: its center [(2, 2)] is on both
    midlines. *)
Definition bbox_centered : BBox.t :=
  {| BBox.x := 1; BBox.y := 1; BBox.width := 2; BBox.height := 2;
     BBox.center := (2, 2)%Q |}.

(** A 1 x 1 box past both midlines of [frame4], short of the far edges. *)
Definition bbox_far : BBox.t :=
  {| BBox.x := 2; BBox.y := 2; BBox.width := 1; BBox.height := 1;
     BBox.center := (5 # 2, 5 # 2)%Q |}.

(** A box before both midlines of [frame4]. *)
Definition bbox_near : BBox.t :=
  {| BBox.x := 1; BBox.y := 1; BBox.width := 1; BBox.height := 1;
     BBox.center := (3 # 2, 3 # 2)%Q |}.

(** A box of half a pixel at the origin. *)
Definition bbox_subpixel : BBox.t :=
  {| BBox.x := 0; BBox.y := 0; BBox.width := 1 # 2; BBox.height := 1 # 2;
     BBox.center := (1 # 4, 1 # 4)%Q |}.

(** A box with no width, a negative height and both corners outside
    [frame4]. *)
Definition bbox_degenerate : BBox.t :=
  {| BBox.x := 7; BBox.y := -3; BBox.width := 0; BBox.height := -1;
     BBox.center := (7, -7 # 2)%Q |}.

(** The box spanning [frame4]. *)
Definition bbox_full : BBox.t :=
  {| BBox.x := 0; BBox.y := 0; BBox.width := 4; BBox.height := 4;
     BBox.center := (2, 2)%Q |}.

(** A segment as it stands when [crop_keyframe] is reached: frames
    attached, key frame chosen, speaker detected. *)
Definition detected (keyframe : Np.ndarray) (bbox : BBox.t) : Segment.t :=
  {| Segment.start := 0; Segment.end_ := 2;
     Segment.frames := Some [keyframe];
     Segment.keyframe_index := Some 0;
     Segment.keyframe := Some keyframe;
     Segment.speaker_location := Some (BBox.center bbox);
     Segment.speakers_bbox := Some bbox;
     Segment.image := None |}.

(** A segment as [Segment(start, end)] leaves it, with the given frames
    attached. *)
Definition attached (frames : list Np.ndarray) : Segment.t :=
  {| Segment.start := 0; Segment.end_ := 2;
     Segment.frames := Some frames;
     Segment.keyframe_index := None;
     Segment.keyframe := None;
     Segment.speaker_location := None;
     Segment.speakers_bbox := None;
     Segment.image := None |}.

(** A generator for examples: a counter, the draw its residue. *)
Definition counter_randbelow (n : Z) (g : Z) : Z * Z := (g mod n, g + 1).

(** ** Concrete collaborators and stores *)

(** A frame source that samples one frame per whole second of the
    interval: an interval shorter than a second yields no frame. *)
Definition one_per_second (start end_ : Q) : result (list Np.ndarray) :=
  Ok (replicate (Z.to_nat (int (end_ - start)%Q)) frame4).

(** A detector that finds [bbox_near] in every image. *)
Definition finds_near
  : result (Np.ndarray -> result (option (Q * Q) * option BBox.t)) :=
  Ok (fun _ => Ok (Some (BBox.center bbox_near), Some bbox_near)).

(** A detector that finds nobody: no location and no box. *)
Definition finds_nobody
  : result (Np.ndarray -> result (option (Q * Q) * option BBox.t)) :=
  Ok (fun _ => Ok (None, None)).

(** A style transfer that returns the image it is given. *)
Definition same_style : result (Np.ndarray -> result Np.ndarray) :=
  Ok (fun image => Ok image).

(** For the behaviour left open on unset fields, in examples: a
    [TypeError]. *)
Definition unset_raises : action Segment.t unit :=
  fun segment => Raised TypeError segment.

(** A segment as [Segment(start, end)] creates it. *)
Definition created (start end_ : Q) : Segment.t :=
  {| Segment.start := start; Segment.end_ := end_;
     Segment.frames := None;
     Segment.keyframe_index := None;
     Segment.keyframe := None;
     Segment.speaker_location := None;
     Segment.speakers_bbox := None;
     Segment.image := None |}.

(** Two utterances, [0 .. 2] and [2 .. 5], behind the references 0 and 1;
    the generator is a counter at 0. *)
Definition two_utterances : world Z :=
  mk_world
    (fun r => match r with O => created 0 2 | _ => created 2 5 end) 0.

(** The same, with a second utterance of half a second. *)
Definition short_utterance : world Z :=
  mk_world
    (fun r => match r with O => created 0 2 | _ => created 2 (5 # 2) end) 0.

(** Closing goals about concrete frames and boxes by evaluation. *)
Ltac by_evaluation := repeat split; vm_compute; try done; try congruence.

(* ===================================================================== *)
(** * Part II.  Properties                                                *)
(* ===================================================================== *)

(** ** Facts about the Python primitives *)

Section PyFacts.

Lemma adjust_le k n : (adjust k n <= n)%nat.
Proof. unfold adjust. destruct (Z.ltb_spec k 0); lia. Qed.

Lemma adjust_in_range k n : 0 <= k <= Z.of_nat n -> adjust k n = Z.to_nat k.
Proof. intros Hk. unfold adjust. destruct (Z.ltb_spec k 0); lia. Qed.

Lemma adjust_beyond k n : Z.of_nat n <= k -> adjust k n = n.
Proof. intros Hk. unfold adjust. destruct (Z.ltb_spec k 0); lia. Qed.

Lemma adjust_zero n : adjust 0 n = 0%nat.
Proof. unfold adjust. simpl. lia. Qed.

Lemma slice_len_le start stop n : (slice_len start stop n <= n)%nat.
Proof.
  unfold slice_len, slice_hi. destruct stop as [k|]; [|lia].
  pose proof (adjust_le k n). lia.
Qed.

Lemma slice_upto {A} k (l : list A) :
  slice None (Some k) l = take (adjust k (length l)) l.
Proof.
  unfold slice, slice_len, slice_lo, slice_hi.
  by rewrite drop_0, Nat.sub_0_r.
Qed.

Lemma slice_from {A} k (l : list A) :
  slice (Some k) None l = drop (adjust k (length l)) l.
Proof.
  unfold slice, slice_len, slice_lo, slice_hi.
  apply take_ge. rewrite length_drop. lia.
Qed.

Lemma length_slice {A} start stop (l : list A) :
  length (slice start stop l) = slice_len start stop (length l).
Proof.
  unfold slice. rewrite length_take, length_drop.
  unfold slice_len, slice_hi, slice_lo.
  destruct stop as [k|]; destruct start as [j|];
    try pose proof (adjust_le k (length l)); lia.
Qed.

Lemma gt_int_spec q n : gt_int q n = true <-> (inject_Z n < q)%Q.
Proof.
  unfold gt_int, Qlt, inject_Z. cbn [Qnum Qden].
  rewrite Z.ltb_lt, Z.mul_1_r. reflexivity.
Qed.

Lemma gt_int_on_midline q n : (q == inject_Z n)%Q -> gt_int q n = false.
Proof.
  intros Heq. destruct (gt_int q n) eqn:Hgt; [|done].
  apply gt_int_spec in Hgt. rewrite Heq in Hgt. by apply Qlt_irrefl in Hgt.
Qed.

Lemma int_whole q n : (q == inject_Z n)%Q -> int q = n.
Proof.
  unfold Qeq, inject_Z, int. cbn [Qnum Qden]. rewrite Z.mul_1_r.
  intros ->. apply Z.quot_mul. done.
Qed.

Lemma int_floor q : (0 <= q)%Q -> int q = Qnum q / Zpos (Qden q).
Proof.
  unfold Qle, int. cbn [Qnum Qden]. rewrite Z.mul_1_r. intros Hq.
  apply Z.quot_div_nonneg; lia.
Qed.

Lemma int_nonneg q : (0 <= q)%Q -> 0 <= int q.
Proof.
  intros Hq. rewrite (int_floor _ Hq). revert Hq.
  unfold Qle. cbn [Qnum Qden]. rewrite Z.mul_1_r. intros Hq.
  apply Z.div_pos; lia.
Qed.

Lemma int_le q n : (0 <= q)%Q -> (q <= inject_Z n)%Q -> int q <= n.
Proof.
  intros Hq. rewrite (int_floor _ Hq).
  unfold Qle, inject_Z. cbn [Qnum Qden]. rewrite Z.mul_1_r. intros Hn.
  apply Z.div_le_upper_bound; lia.
Qed.

Lemma int_lt q n : (0 <= q)%Q -> (q < inject_Z n)%Q -> int q < n.
Proof.
  intros Hq. rewrite (int_floor _ Hq).
  unfold Qlt, inject_Z. cbn [Qnum Qden]. rewrite Z.mul_1_r. intros Hn.
  apply Z.div_lt_upper_bound; lia.
Qed.

Lemma int_ge_1 q : (1 <= q)%Q -> 1 <= int q.
Proof.
  intros Hq. assert (0 <= q)%Q as H0 by (eapply Qle_trans; [|exact Hq]; done).
  rewrite (int_floor _ H0). revert Hq.
  unfold Qle. cbn [Qnum Qden]. rewrite Z.mul_1_l. intros Hq.
  apply Z.div_le_lower_bound; lia.
Qed.

End PyFacts.

(** ** The primitives on concrete values *)

(** [int] truncates toward zero. *)
Example int_truncates :
  int (7 # 2) = 3 /\ int (-7 # 2) = -3 /\ int (-1 # 2) = 0 /\ int 5 = 5.
Proof. by_evaluation. Qed.

(** [//] rounds down. *)
Example floordiv_rounds_down :
  floordiv 5 2 = 2 /\ floordiv 4 2 = 2 /\ floordiv 1 2 = 0.
Proof. by_evaluation. Qed.

(** Slice bounds: a negative bound counts from the end, a bound past the
    end is clamped, crossing bounds select nothing. *)
Example slice_bounds :
  slice None (Some 2) [10; 20; 30; 40] = [10; 20] /\
  slice (Some 1) None [10; 20; 30; 40] = [20; 30; 40] /\
  slice (Some (-3)) None [10; 20; 30; 40] = [20; 30; 40] /\
  slice None (Some (-1)) [10; 20; 30; 40] = [10; 20; 30] /\
  slice None (Some 9) [10; 20; 30; 40] = [10; 20; 30; 40] /\
  slice (Some 9) None [10; 20; 30; 40] = [] /\
  slice (Some 3) (Some 1) [10; 20; 30; 40] = [].
Proof. by_evaluation. Qed.

(** [randint(0, -1)] raises; [randint(0, 2)] draws from [0 .. 2]. *)
Example randint_on_counter :
  randint counter_randbelow 0 (-1) 5 = Raise ValueError /\
  randint counter_randbelow 0 2 5 = Ok (2, 6).
Proof. by_evaluation. Qed.

(** ** Facts about slicing an image *)

Section NpFacts.

Lemma shape1_getitem0 start stop a :
  Np.shape1 (Np.getitem0 start stop a) = Np.shape1 a.
Proof. reflexivity. Qed.

Lemma shape0_getitem1 start stop a :
  Np.shape0 (Np.getitem1 start stop a) = Np.shape0 a.
Proof. unfold Np.shape0, Np.getitem1. cbn [Np.rows]. by rewrite length_map. Qed.

Lemma shape0_getitem0 start stop a :
  Np.shape0 (Np.getitem0 start stop a)
  = Z.of_nat (slice_len start stop (length (Np.rows a))).
Proof. unfold Np.shape0, Np.getitem0. cbn [Np.rows]. by rewrite length_slice. Qed.

Lemma shape1_getitem1 start stop a :
  Np.shape1 (Np.getitem1 start stop a)
  = Z.of_nat (slice_len start stop (Np.dim1 a)).
Proof. reflexivity. Qed.

Lemma getitem0_wf start stop a : Np.wf a -> Np.wf (Np.getitem0 start stop a).
Proof.
  intros [H1 H2]. unfold Np.wf, Np.getitem0, slice. cbn [Np.rows Np.dim1 Np.dim2].
  split; by apply Forall_take, Forall_drop.
Qed.

Lemma getitem1_wf start stop a : Np.wf a -> Np.wf (Np.getitem1 start stop a).
Proof.
  intros [H1 H2]. unfold Np.wf, Np.getitem1. cbn [Np.rows Np.dim1 Np.dim2].
  split; apply Forall_map.
  - eapply Forall_impl; [|exact H1]. cbn beta. intros r Hr.
    by rewrite length_slice, Hr.
  - eapply Forall_impl; [|exact H2]. cbn beta. intros r Hr.
    unfold slice. by apply Forall_take, Forall_drop.
Qed.

(** The whole axis, selected with explicit bounds. *)
Lemma getitem0_all_upto a :
  Np.getitem0 None (Some (Np.shape0 a)) a = a.
Proof.
  destruct a as [rows d1 d2]. unfold Np.getitem0, Np.shape0. cbn [Np.rows Np.dim1 Np.dim2].
  f_equal. rewrite slice_upto, adjust_beyond by lia. by apply take_ge.
Qed.

Lemma getitem0_all_from a :
  Np.getitem0 (Some 0) None a = a.
Proof.
  destruct a as [rows d1 d2]. unfold Np.getitem0. cbn [Np.rows Np.dim1 Np.dim2].
  f_equal. by rewrite slice_from, adjust_zero.
Qed.

Lemma getitem1_all_upto a :
  Np.wf a -> Np.getitem1 None (Some (Np.shape1 a)) a = a.
Proof.
  destruct a as [rows d1 d2]. intros [Hw _]. revert Hw.
  unfold Np.getitem1, Np.shape1. cbn [Np.rows Np.dim1 Np.dim2]. intros Hw.
  f_equal.
  - rewrite <- (map_id rows) at 2. apply map_ext_Forall.
    eapply Forall_impl; [|exact Hw]. cbn beta. intros r Hr.
    rewrite slice_upto, adjust_beyond by lia. by apply take_ge.
  - unfold slice_len, slice_hi, slice_lo. rewrite adjust_beyond by lia. lia.
Qed.

Lemma getitem1_all_from a :
  Np.getitem1 (Some 0) None a = a.
Proof.
  destruct a as [rows d1 d2]. unfold Np.getitem1. cbn [Np.rows Np.dim1 Np.dim2].
  f_equal.
  - rewrite <- (map_id rows) at 2. apply map_ext. intros r.
    by rewrite slice_from, adjust_zero.
  - unfold slice_len, slice_hi, slice_lo. rewrite adjust_zero. lia.
Qed.

End NpFacts.

(** ** The quadrant crop *)

Section Crop.
Implicit Types (s : Segment.t) (kf : Np.ndarray) (b : BBox.t).

(** With key frame and box in place, [crop_keyframe] stores the vertical
    pass of the horizontal pass. *)
Lemma crop_keyframe_eq s kf b :
  Segment.keyframe s = Some kf ->
  Segment.speakers_bbox s = Some b ->
  crop_keyframe s
  = Ok (Segment.set_keyframe (vertical_pass b (horizontal_pass b kf)) s).
Proof.
  intros Hk Hb. unfold crop_keyframe. rewrite Hb, Hk.
  cbn [mbind result_bind attr Segment.speakers_bbox Segment.keyframe
       Segment.set_keyframe].
  rewrite Hb. reflexivity.
Qed.

(** Without one of them the first attribute access through [None]
    raises. *)
Lemma crop_keyframe_unset s :
  Segment.keyframe s = None \/ Segment.speakers_bbox s = None ->
  crop_keyframe s = Raise AttributeError.
Proof.
  unfold crop_keyframe.
  intros [H|H]; rewrite H; [destruct (Segment.speakers_bbox s)|]; reflexivity.
Qed.

Lemma crop_keyframe_cases s :
  (exists out, crop_keyframe s = Ok (Segment.set_keyframe out s)) \/
  crop_keyframe s = Raise AttributeError.
Proof.
  destruct (Segment.keyframe s) as [kf|] eqn:Hk;
    [destruct (Segment.speakers_bbox s) as [b|] eqn:Hb|].
  - left. eexists. by apply crop_keyframe_eq.
  - right. apply crop_keyframe_unset. auto.
  - right. apply crop_keyframe_unset. auto.
Qed.

Lemma horizontal_pass_past b kf :
  (inject_Z (floordiv (Np.shape0 kf) 2) < (BBox.center b).1)%Q ->
  horizontal_pass b kf
  = Np.getitem0 None (Some (int (BBox.x b + BBox.width b)%Q)) kf.
Proof. intros H. apply gt_int_spec in H. unfold horizontal_pass. by rewrite H. Qed.

Lemma horizontal_pass_not_past b kf :
  ~ (inject_Z (floordiv (Np.shape0 kf) 2) < (BBox.center b).1)%Q ->
  horizontal_pass b kf = Np.getitem0 (Some (int (BBox.x b))) None kf.
Proof.
  intros H. unfold horizontal_pass.
  destruct (gt_int _ _) eqn:Hgt; [|done]. by apply gt_int_spec in Hgt.
Qed.

Lemma vertical_pass_past b kf :
  (inject_Z (floordiv (Np.shape1 kf) 2) < (BBox.center b).2)%Q ->
  vertical_pass b kf
  = Np.getitem1 None (Some (int (BBox.y b + BBox.height b)%Q)) kf.
Proof. intros H. apply gt_int_spec in H. unfold vertical_pass. by rewrite H. Qed.

Lemma vertical_pass_not_past b kf :
  ~ (inject_Z (floordiv (Np.shape1 kf) 2) < (BBox.center b).2)%Q ->
  vertical_pass b kf = Np.getitem1 (Some (int (BBox.y b))) None kf.
Proof.
  intros H. unfold vertical_pass.
  destruct (gt_int _ _) eqn:Hgt; [|done]. by apply gt_int_spec in Hgt.
Qed.

(** The horizontal pass slices axis 0 only. *)
Lemma shape1_horizontal_pass b kf :
  Np.shape1 (horizontal_pass b kf) = Np.shape1 kf.
Proof. unfold horizontal_pass. by destruct (gt_int _ _). Qed.

Lemma shape2_horizontal_pass b kf :
  Np.shape2 (horizontal_pass b kf) = Np.shape2 kf.
Proof. unfold horizontal_pass. by destruct (gt_int _ _). Qed.

(** The vertical pass slices axis 1 only. *)
Lemma shape0_vertical_pass b kf :
  Np.shape0 (vertical_pass b kf) = Np.shape0 kf.
Proof. unfold vertical_pass. destruct (gt_int _ _); apply shape0_getitem1. Qed.

Lemma shape2_vertical_pass b kf :
  Np.shape2 (vertical_pass b kf) = Np.shape2 kf.
Proof. unfold vertical_pass. by destruct (gt_int _ _). Qed.

(** No slice is larger than what it is taken from. *)
Lemma shape0_horizontal_pass_le b kf :
  0 <= Np.shape0 (horizontal_pass b kf) <= Np.shape0 kf.
Proof.
  unfold horizontal_pass. destruct (gt_int _ _); rewrite shape0_getitem0;
    (split; [lia|]); unfold Np.shape0; apply inj_le, slice_len_le.
Qed.

Lemma shape1_vertical_pass_le b kf :
  0 <= Np.shape1 (vertical_pass b kf) <= Np.shape1 kf.
Proof.
  unfold vertical_pass. destruct (gt_int _ _); rewrite shape1_getitem1;
    (split; [lia|]); unfold Np.shape1; apply inj_le, slice_len_le.
Qed.

End Crop.

Section CropBounds.
Implicit Types (s : Segment.t) (kf : Np.ndarray) (b : BBox.t).

Lemma slice_len_upto_bounds k n :
  1 <= k <= Z.of_nat n ->
  1 <= Z.of_nat (slice_len None (Some k) n) <= Z.of_nat n.
Proof.
  intros Hk. unfold slice_len, slice_hi, slice_lo.
  rewrite adjust_in_range by lia. lia.
Qed.

Lemma slice_len_from_bounds k n :
  0 <= k < Z.of_nat n ->
  1 <= Z.of_nat (slice_len (Some k) None n) <= Z.of_nat n.
Proof.
  intros Hk. unfold slice_len, slice_hi, slice_lo.
  rewrite adjust_in_range by lia. lia.
Qed.

(** One axis of a valid box: where [int] puts its two ends. *)
Lemma int_far_end (lo extent : Q) n :
  (0 <= lo)%Q -> (0 < extent)%Q -> (lo + extent <= inject_Z n)%Q ->
  (1 <= lo + extent)%Q ->
  1 <= int (lo + extent)%Q <= n.
Proof.
  intros H0 Hpos Hn H1. split.
  - by apply int_ge_1.
  - apply int_le; [lra|done].
Qed.

Lemma int_near_end (lo extent : Q) n :
  (0 <= lo)%Q -> (0 < extent)%Q -> (lo + extent <= inject_Z n)%Q ->
  0 <= int lo < n.
Proof.
  intros H0 Hpos Hn. split.
  - by apply int_nonneg.
  - apply int_lt; [done|lra].
Qed.

Lemma shape0_horizontal_pass_bounds b kf :
  (0 <= BBox.x b)%Q -> (0 < BBox.width b)%Q ->
  (BBox.x b + BBox.width b <= inject_Z (Np.shape0 kf))%Q ->
  (1 <= BBox.x b + BBox.width b)%Q ->
  1 <= Np.shape0 (horizontal_pass b kf) <= Np.shape0 kf.
Proof.
  intros H0 Hpos Hn H1. unfold horizontal_pass.
  destruct (gt_int _ _); rewrite shape0_getitem0.
  - apply slice_len_upto_bounds. by apply int_far_end.
  - apply slice_len_from_bounds. by eapply int_near_end.
Qed.

Lemma shape1_vertical_pass_bounds b kf :
  (0 <= BBox.y b)%Q -> (0 < BBox.height b)%Q ->
  (BBox.y b + BBox.height b <= inject_Z (Np.shape1 kf))%Q ->
  (1 <= BBox.y b + BBox.height b)%Q ->
  1 <= Np.shape1 (vertical_pass b kf) <= Np.shape1 kf.
Proof.
  intros H0 Hpos Hn H1. unfold vertical_pass.
  destruct (gt_int _ _); rewrite shape1_getitem1.
  - apply slice_len_upto_bounds. by apply int_far_end.
  - apply slice_len_from_bounds. by eapply int_near_end.
Qed.

(** Both passes together, on a valid box whose far ends are at least one
    pixel away from the origin. *)
Lemma crop_dimensions_bounds b kf :
  valid_bbox b kf ->
  (1 <= BBox.x b + BBox.width b)%Q ->
  (1 <= BBox.y b + BBox.height b)%Q ->
  1 <= Np.shape0 (vertical_pass b (horizontal_pass b kf)) <= Np.shape0 kf /\
  1 <= Np.shape1 (vertical_pass b (horizontal_pass b kf)) <= Np.shape1 kf /\
  Np.shape2 (vertical_pass b (horizontal_pass b kf)) = Np.shape2 kf.
Proof.
  intros (Hx & Hy & Hw & Hh & Hxw & Hyh) Hx1 Hy1.
  rewrite shape0_vertical_pass, shape2_vertical_pass, shape2_horizontal_pass.
  split; [by apply shape0_horizontal_pass_bounds|]. split; [|done].
  rewrite <- (shape1_horizontal_pass b kf).
  apply shape1_vertical_pass_bounds; try done.
  by rewrite shape1_horizontal_pass.
Qed.

(** A whole, non-negative start and a whole, positive extent put the far
    end at least one pixel away from the origin. *)
Lemma whole_far_end (lo extent : Q) (lo' extent' : Z) :
  (lo == inject_Z lo')%Q -> (extent == inject_Z extent')%Q ->
  (0 <= lo)%Q -> (0 < extent)%Q ->
  (1 <= lo + extent)%Q.
Proof.
  intros Hlo Hext. rewrite Hlo, Hext, <- inject_Z_plus.
  rewrite <- (Zle_Qle 0), <- (Zlt_Qlt 0). change 1%Q with (inject_Z 1).
  rewrite <- Zle_Qle. lia.
Qed.

End CropBounds.

(** ** Claims about [crop_keyframe] *)

Section CropClaims.
Implicit Types (s : Segment.t) (kf : Np.ndarray) (b : BBox.t).

(** C3, as the specification words it, fails: on [frame4] with the valid
    box [bbox_far] the center is past the midline, the index
    [x + width = 3] exists in the frame, and the horizontal pass does not
    keep it. *)
Lemma horizontal_pass_excludes_far_end :
  valid_bbox bbox_far frame4 /\
  (inject_Z (floordiv (Np.shape0 frame4) 2) < (BBox.center bbox_far).1)%Q /\
  int (BBox.x bbox_far + BBox.width bbox_far)%Q = 3 /\
  Np.rows frame4 !! 3%nat = Some [[12]; [13]; [14]; [15]] /\
  Np.rows (horizontal_pass bbox_far frame4) !! 3%nat = None.
Proof. by_evaluation. Qed.

(** C3 (amended): for a valid box the horizontal pass compares
    [center[0]] with [shape[0] // 2]; strictly past it, the rows kept are
    those at the indices below [int(x + width)], which itself is
    excluded; otherwise the rows kept are those from index [int(x)] on.
    Axes 1 and 2 are left alone. *)
Theorem horizontal_pass_keeps kf b :
  valid_bbox b kf ->
  ((inject_Z (floordiv (Np.shape0 kf) 2) < (BBox.center b).1)%Q ->
     Np.rows (horizontal_pass b kf)
       = take (Z.to_nat (int (BBox.x b + BBox.width b)%Q)) (Np.rows kf) /\
     Np.rows (horizontal_pass b kf)
       !! Z.to_nat (int (BBox.x b + BBox.width b)%Q) = None) /\
  (~ (inject_Z (floordiv (Np.shape0 kf) 2) < (BBox.center b).1)%Q ->
     Np.rows (horizontal_pass b kf)
       = drop (Z.to_nat (int (BBox.x b))) (Np.rows kf)) /\
  Np.dim1 (horizontal_pass b kf) = Np.dim1 kf /\
  Np.dim2 (horizontal_pass b kf) = Np.dim2 kf.
Proof.
  intros (Hx & Hy & Hw & Hh & Hxw & Hyh).
  assert (0 <= int (BBox.x b + BBox.width b)%Q <= Np.shape0 kf) as Hfar.
  { split; [apply int_nonneg; lra | apply int_le; [lra|done]]. }
  assert (0 <= int (BBox.x b) <= Np.shape0 kf) as Hnear.
  { split; [by apply int_nonneg | apply int_le; [done|lra]]. }
  split; [|split; [|split]].
  - intros Hpast. rewrite horizontal_pass_past by done.
    cbn [Np.rows Np.getitem0]. rewrite slice_upto.
    rewrite adjust_in_range by done. split; [done|].
    by apply lookup_take_ge.
  - intros Hnot. rewrite horizontal_pass_not_past by done.
    cbn [Np.rows Np.getitem0]. rewrite slice_from.
    by rewrite adjust_in_range.
  - unfold horizontal_pass. by destruct (gt_int _ _).
  - unfold horizontal_pass. by destruct (gt_int _ _).
Qed.

Lemma horizontal_pass_keeps_witness :
  valid_bbox bbox_far frame4 /\
  Np.rows (horizontal_pass bbox_far frame4)
    = take (Z.to_nat (int (BBox.x bbox_far + BBox.width bbox_far)%Q))
        (Np.rows frame4).
Proof.
  assert (valid_bbox bbox_far frame4) as Hv by by_evaluation.
  split; [exact Hv|].
  apply (horizontal_pass_keeps frame4 bbox_far Hv). by_evaluation.
Defined.

(** C2, as the specification words it, fails: the center of
    [bbox_centered] is on both midlines of [frame4], and neither pass
    keeps the part from index 0 up to the end of the box. *)
Lemma midline_tie_not_past :
  ((BBox.center bbox_centered).1
     == inject_Z (floordiv (Np.shape0 frame4) 2))%Q /\
  horizontal_pass bbox_centered frame4
    <> Np.getitem0 None
         (Some (int (BBox.x bbox_centered + BBox.width bbox_centered)%Q))
         frame4 /\
  ((BBox.center bbox_centered).2
     == inject_Z (floordiv (Np.shape1 (horizontal_pass bbox_centered frame4)) 2))%Q /\
  vertical_pass bbox_centered (horizontal_pass bbox_centered frame4)
    <> Np.getitem1 None
         (Some (int (BBox.y bbox_centered + BBox.height bbox_centered)%Q))
         (horizontal_pass bbox_centered frame4).
Proof. by_evaluation. Qed.

(** C2 (amended): a center exactly on the midline of an axis is not
    strictly past it, so on that axis the crop takes the other branch and
    keeps the part from the start of the box ([int(x)], resp. [int(y)])
    to the far edge. *)
Theorem midline_tie_keeps_from_box_start s kf b :
  Segment.keyframe s = Some kf ->
  Segment.speakers_bbox s = Some b ->
  crop_keyframe s
    = Ok (Segment.set_keyframe (vertical_pass b (horizontal_pass b kf)) s) /\
  (((BBox.center b).1 == inject_Z (floordiv (Np.shape0 kf) 2))%Q ->
     horizontal_pass b kf = Np.getitem0 (Some (int (BBox.x b))) None kf) /\
  (((BBox.center b).2
      == inject_Z (floordiv (Np.shape1 (horizontal_pass b kf)) 2))%Q ->
     vertical_pass b (horizontal_pass b kf)
       = Np.getitem1 (Some (int (BBox.y b))) None (horizontal_pass b kf)).
Proof.
  intros Hk Hb. split; [by apply crop_keyframe_eq|]. split.
  - intros Htie. unfold horizontal_pass. by rewrite (gt_int_on_midline _ _ Htie).
  - intros Htie. unfold vertical_pass. by rewrite (gt_int_on_midline _ _ Htie).
Qed.

Lemma midline_tie_keeps_from_box_start_witness :
  ((BBox.center bbox_centered).1
     == inject_Z (floordiv (Np.shape0 frame4) 2))%Q /\
  horizontal_pass bbox_centered frame4
    = Np.getitem0 (Some (int (BBox.x bbox_centered))) None frame4.
Proof.
  split; [by_evaluation|].
  apply (midline_tie_keeps_from_box_start
           (detected frame4 bbox_centered) frame4 bbox_centered
           eq_refl eq_refl).
  by_evaluation.
Defined.

(** C4, as the specification words it, fails in its last part: the
    midline of the vertical pass never differs from half the second
    dimension of the original frame. *)
Lemma vertical_midline_never_differs :
  ~ exists kf b,
      floordiv (Np.shape1 (horizontal_pass b kf)) 2
      <> floordiv (Np.shape1 kf) 2.
Proof. intros (kf & b & H). apply H. by rewrite shape1_horizontal_pass. Qed.

(** C4 (amended): the vertical pass is applied to the result of the
    horizontal pass and compares [center[1]] with half the second
    dimension of that image; this is always half the second dimension of
    the original frame, since the horizontal pass slices axis 0 only. *)
Theorem vertical_pass_after_horizontal s kf b :
  Segment.keyframe s = Some kf ->
  Segment.speakers_bbox s = Some b ->
  crop_keyframe s
    = Ok (Segment.set_keyframe (vertical_pass b (horizontal_pass b kf)) s) /\
  vertical_pass b (horizontal_pass b kf)
    = (if gt_int (BBox.center b).2
            (floordiv (Np.shape1 (horizontal_pass b kf)) 2)
       then Np.getitem1 None (Some (int (BBox.y b + BBox.height b)%Q))
              (horizontal_pass b kf)
       else Np.getitem1 (Some (int (BBox.y b))) None (horizontal_pass b kf)) /\
  floordiv (Np.shape1 (horizontal_pass b kf)) 2 = floordiv (Np.shape1 kf) 2.
Proof.
  intros Hk Hb. split; [by apply crop_keyframe_eq|]. split; [reflexivity|].
  by rewrite shape1_horizontal_pass.
Qed.

Lemma vertical_pass_after_horizontal_witness :
  crop_keyframe (detected frame4 bbox_far)
    = Ok (Segment.set_keyframe
            (vertical_pass bbox_far (horizontal_pass bbox_far frame4))
            (detected frame4 bbox_far)).
Proof.
  apply (vertical_pass_after_horizontal (detected frame4 bbox_far) frame4 bbox_far);
    reflexivity.
Defined.

(** C6, as the specification words it, fails: [bbox_degenerate] has no
    width, a negative height and corners outside [frame4], and
    [crop_keyframe] returns normally with a slice of the frame. *)
Lemma degenerate_bbox_is_cropped :
  ~ valid_bbox bbox_degenerate frame4 /\
  (BBox.width bbox_degenerate <= 0)%Q /\
  (BBox.height bbox_degenerate <= 0)%Q /\
  (inject_Z (Np.shape0 frame4) < BBox.x bbox_degenerate)%Q /\
  (BBox.y bbox_degenerate < 0)%Q /\
  crop_keyframe (detected frame4 bbox_degenerate)
    = Ok (Segment.set_keyframe (Np.getitem1 (Some (-3)) None frame4)
            (detected frame4 bbox_degenerate)) /\
  crop_keyframe (detected frame4 bbox_degenerate)
    <> Raise InvalidBoundingBoxError.
Proof.
  split; [|by_evaluation].
  intros (_ & Hy & _). revert Hy. by_evaluation.
Qed.

(** C6 (amended): [crop_keyframe] validates nothing and never raises
    [InvalidBoundingBoxError].  When key frame and box are set it returns
    normally whatever the box is, the slice bounds being clamped to the
    frame, so no dimension grows and one may become 0; when one of them
    is unset it raises [AttributeError]. *)
Theorem crop_keyframe_never_rejects s :
  crop_keyframe s <> Raise InvalidBoundingBoxError /\
  match Segment.keyframe s, Segment.speakers_bbox s with
  | Some kf, Some b =>
      exists out,
        crop_keyframe s = Ok (Segment.set_keyframe out s) /\
        0 <= Np.shape0 out <= Np.shape0 kf /\
        0 <= Np.shape1 out <= Np.shape1 kf /\
        Np.shape2 out = Np.shape2 kf
  | _, _ => crop_keyframe s = Raise AttributeError
  end.
Proof.
  destruct (Segment.keyframe s) as [kf|] eqn:Hk;
    [destruct (Segment.speakers_bbox s) as [b|] eqn:Hb|].
  - rewrite (crop_keyframe_eq s kf b Hk Hb). split; [done|].
    eexists. split; [reflexivity|].
    rewrite shape0_vertical_pass, shape2_vertical_pass, shape2_horizontal_pass.
    pose proof (shape0_horizontal_pass_le b kf).
    pose proof (shape1_vertical_pass_le b (horizontal_pass b kf)) as H1.
    rewrite shape1_horizontal_pass in H1. done.
  - rewrite crop_keyframe_unset by auto. done.
  - rewrite crop_keyframe_unset by auto. done.
Qed.

(** C8, as the specification words it, fails: [bbox_subpixel] is a valid
    box on [frame1] (positive width and height, inside the raster), and
    the crop has no row and no column left. *)
Lemma subpixel_bbox_crops_to_nothing :
  valid_bbox bbox_subpixel frame1 /\
  exists out,
    crop_keyframe (detected frame1 bbox_subpixel)
      = Ok (Segment.set_keyframe out (detected frame1 bbox_subpixel)) /\
    Np.shape0 out = 0 /\ Np.shape1 out = 0.
Proof.
  split; [by_evaluation|].
  eexists. split; [reflexivity|]. by_evaluation.
Qed.

(** C8 (amended): for a valid box whose far ends are at least one pixel
    away from the origin ([x + width >= 1] and [y + height >= 1], which
    holds for every valid box with whole coordinates), each of the first
    two dimensions of the crop is at least 1 and at most the dimension of
    the key frame; the third one is unchanged. *)
Theorem crop_keyframe_dimensions s kf b :
  Segment.keyframe s = Some kf ->
  Segment.speakers_bbox s = Some b ->
  valid_bbox b kf ->
  (1 <= BBox.x b + BBox.width b)%Q ->
  (1 <= BBox.y b + BBox.height b)%Q ->
  exists out,
    crop_keyframe s = Ok (Segment.set_keyframe out s) /\
    1 <= Np.shape0 out <= Np.shape0 kf /\
    1 <= Np.shape1 out <= Np.shape1 kf /\
    Np.shape2 out = Np.shape2 kf.
Proof.
  intros Hk Hb Hvalid Hx1 Hy1.
  eexists. split; [by apply crop_keyframe_eq|].
  by apply crop_dimensions_bounds.
Qed.

Lemma crop_keyframe_dimensions_witness :
  valid_bbox bbox_far frame4 /\
  exists out,
    crop_keyframe (detected frame4 bbox_far)
      = Ok (Segment.set_keyframe out (detected frame4 bbox_far)) /\
    1 <= Np.shape0 out <= Np.shape0 frame4 /\
    1 <= Np.shape1 out <= Np.shape1 frame4 /\
    Np.shape2 out = Np.shape2 frame4.
Proof.
  assert (valid_bbox bbox_far frame4) as Hv by by_evaluation.
  split; [exact Hv|].
  apply (crop_keyframe_dimensions (detected frame4 bbox_far) frame4 bbox_far);
    [reflexivity | reflexivity | exact Hv | by_evaluation | by_evaluation].
Defined.

(** C9: with a box that spans the whole frame ([x = 0], [y = 0],
    [width = shape[0]], [height = shape[1]]), [crop_keyframe] leaves the
    key frame, and so the whole segment, as it was. *)
Theorem crop_keyframe_full_frame s kf b :
  Segment.keyframe s = Some kf ->
  Segment.speakers_bbox s = Some b ->
  Np.wf kf ->
  full_frame b kf ->
  crop_keyframe s = Ok s.
Proof.
  intros Hk Hb Hwf (Hx & Hy & Hw & Hh).
  rewrite (crop_keyframe_eq s kf b Hk Hb).
  assert (int (BBox.x b) = 0) as Hx0 by (by apply int_whole).
  assert (int (BBox.y b) = 0) as Hy0 by (by apply int_whole).
  assert (int (BBox.x b + BBox.width b)%Q = Np.shape0 kf) as Hxw.
  { apply int_whole. rewrite Hx, Hw. apply Qplus_0_l. }
  assert (int (BBox.y b + BBox.height b)%Q = Np.shape1 kf) as Hyh.
  { apply int_whole. rewrite Hy, Hh. apply Qplus_0_l. }
  assert (horizontal_pass b kf = kf) as ->.
  { unfold horizontal_pass. rewrite Hx0, Hxw.
    destruct (gt_int _ _); [apply getitem0_all_upto | apply getitem0_all_from]. }
  assert (vertical_pass b kf = kf) as ->.
  { unfold vertical_pass. rewrite Hy0, Hyh.
    destruct (gt_int _ _); [by apply getitem1_all_upto | apply getitem1_all_from]. }
  f_equal. destruct s. cbn in Hk. subst. reflexivity.
Qed.

Lemma crop_keyframe_full_frame_witness :
  crop_keyframe (detected frame4 bbox_full) = Ok (detected frame4 bbox_full).
Proof.
  apply (crop_keyframe_full_frame (detected frame4 bbox_full) frame4 bbox_full);
    [reflexivity | reflexivity | | by_evaluation].
  split; repeat constructor.
Defined.

(** C10: [crop_keyframe] assigns to [segment.keyframe] only: when it
    returns, [start], [end], [frames], [keyframe_index],
    [speaker_location], [speakers_bbox] and [image] are as before. *)
Theorem crop_keyframe_writes_keyframe_only s s' :
  crop_keyframe s = Ok s' ->
  Segment.start s' = Segment.start s /\
  Segment.end_ s' = Segment.end_ s /\
  Segment.frames s' = Segment.frames s /\
  Segment.keyframe_index s' = Segment.keyframe_index s /\
  Segment.speaker_location s' = Segment.speaker_location s /\
  Segment.speakers_bbox s' = Segment.speakers_bbox s /\
  Segment.image s' = Segment.image s.
Proof.
  destruct (crop_keyframe_cases s) as [(out & ->)| ->]; [|done].
  intros [= <-]. done.
Qed.

End CropClaims.

Lemma crop_keyframe_writes_keyframe_only_witness :
  exists s',
    crop_keyframe (detected frame4 bbox_near) = Ok s' /\
    Segment.frames s' = Segment.frames (detected frame4 bbox_near) /\
    Segment.speakers_bbox s' = Some bbox_near.
Proof.
  eexists. split; [reflexivity|].
  split;
    apply (crop_keyframe_writes_keyframe_only
             (detected frame4 bbox_near) _ eq_refl).
Defined.

(** With whole coordinates every valid box keeps at least one row and one
    column: the sub-pixel case is the only one in which a valid box is
    cropped to nothing. *)
Lemma crop_keyframe_dimensions_whole s kf b (xi yi wi hi : Z) :
  Segment.keyframe s = Some kf ->
  Segment.speakers_bbox s = Some b ->
  valid_bbox b kf ->
  (BBox.x b == inject_Z xi /\ BBox.y b == inject_Z yi /\
   BBox.width b == inject_Z wi /\ BBox.height b == inject_Z hi)%Q ->
  exists out,
    crop_keyframe s = Ok (Segment.set_keyframe out s) /\
    1 <= Np.shape0 out <= Np.shape0 kf /\
    1 <= Np.shape1 out <= Np.shape1 kf /\
    Np.shape2 out = Np.shape2 kf.
Proof.
  intros Hk Hb Hvalid (Hxi & Hyi & Hwi & Hhi).
  pose proof Hvalid as (Hx & Hy & Hw & Hh & _).
  eexists. split; [by apply crop_keyframe_eq|].
  apply crop_dimensions_bounds; [done| |]; by eapply whole_far_end.
Qed.

Lemma crop_keyframe_dimensions_whole_witness :
  exists out,
    crop_keyframe (detected frame4 bbox_centered)
      = Ok (Segment.set_keyframe out (detected frame4 bbox_centered)) /\
    1 <= Np.shape0 out <= Np.shape0 frame4 /\
    1 <= Np.shape1 out <= Np.shape1 frame4 /\
    Np.shape2 out = Np.shape2 frame4.
Proof.
  apply (crop_keyframe_dimensions_whole
           (detected frame4 bbox_centered) frame4 bbox_centered 1 1 2 2);
    [reflexivity | reflexivity | by_evaluation | by_evaluation].
Defined.



(** ** Key-frame selection *)

Section KeyFrameClaims.
Context {rng : Type} (randbelow : Z -> rng -> Z * rng).

(** What the library promises of [_randbelow(n)]: a value in [0, n). *)
Hypothesis randbelow_range :
  forall n g, 0 < n -> 0 <= (randbelow n g).1 < n.

Lemma randint_empty a b g : b < a -> randint randbelow a b g = Raise ValueError.
Proof.
  intros Hab. unfold randint, randrange. cbv zeta.
  destruct (Z.ltb_spec 0 (b + 1 - a)); [lia|done].
Qed.

Lemma randint_range a b g :
  a <= b ->
  exists r g', randint randbelow a b g = Ok (r, g') /\ a <= r <= b.
Proof.
  intros Hab. unfold randint, randrange. cbv zeta.
  destruct (Z.ltb_spec 0 (b + 1 - a)) as [Hw|]; [|lia].
  pose proof (randbelow_range (b + 1 - a) g Hw) as Hr.
  destruct (randbelow (b + 1 - a) g) as [r g']. cbn in Hr.
  exists (a + r), g'. split; [done|lia].
Qed.

(** C5 (amended): on a segment with no frame attached to it,
    [get_key_frame_index] fails with the [ValueError] that [randint]
    raises on the empty range [0 .. -1]; on a segment with at least one
    frame it returns, having assigned a [keyframe_index] in
    [0, number of frames). *)
Theorem get_key_frame_index_range s frames g :
  Segment.frames s = Some frames ->
  (frames = [] -> get_key_frame_index randbelow s g = Raise ValueError) /\
  (frames <> [] ->
     exists k g',
       get_key_frame_index randbelow s g
         = Ok (Segment.set_keyframe_index k s, g') /\
       0 <= k < Z.of_nat (length frames)).
Proof.
  intros Hf. unfold get_key_frame_index. rewrite Hf.
  cbn [attr mbind result_bind]. split.
  - intros ->. cbn [length]. by rewrite randint_empty.
  - intros Hne.
    destruct (randint_range 0 (Z.of_nat (length frames) - 1) g)
      as (r & g' & -> & Hr).
    { destruct frames; [done|]. cbn [length]. lia. }
    exists r, g'. split; [done|lia].
Qed.

End KeyFrameClaims.

(** C5, as the specification words it, fails in the kind of the error:
    with no frame attached the failure is a [ValueError], not an
    [EmptySegmentError]. *)
Lemma no_frames_raises_value_error :
  Segment.frames (attached []) = Some [] /\
  get_key_frame_index counter_randbelow (attached []) 5 = Raise ValueError /\
  get_key_frame_index counter_randbelow (attached []) 5
    <> Raise EmptySegmentError.
Proof. by_evaluation. Qed.

Lemma get_key_frame_index_range_witness :
  exists k g',
    get_key_frame_index counter_randbelow (attached [frame4; frame1; frame4]) 5
      = Ok (Segment.set_keyframe_index k (attached [frame4; frame1; frame4]), g') /\
    0 <= k < 3.
Proof.
  apply (get_key_frame_index_range counter_randbelow
           (fun n g Hn => Z.mod_pos_bound g n Hn)
           (attached [frame4; frame1; frame4]) [frame4; frame1; frame4] 5
           eq_refl).
  discriminate.
Defined.

(** ** [pipe] *)

Section PipeFacts.
Context {W ref : Type}.
Implicit Types (functions : list (operation W ref)) (segments : list ref).
Implicit Types (w : W).

Lemma for_each_app {X} (body : X -> action W unit) xs ys w :
  for_each body (xs ++ ys) w = (for_each body xs;; for_each body ys) w.
Proof.
  revert w. induction xs as [|x xs IH]; intros w; [done|].
  cbn [app for_each]. unfold mbind, action_bind.
  destruct (body x w) as [[] w'|e w']; [|done]. apply IH.
Qed.

Lemma for_each_map {X Y} (body : Y -> action W unit) (f : X -> Y) xs w :
  for_each body (map f xs) w = for_each (fun x => body (f x)) xs w.
Proof.
  revert w. induction xs as [|x xs IH]; intros w; [done|].
  cbn [map for_each]. unfold mbind, action_bind.
  destruct (body (f x) w) as [[] w'|e w']; [|done]. apply IH.
Qed.

(** A loop that stops at a raise: what precedes the raise is all that
    ran. *)
Lemma for_each_raise {X} (body : X -> action W unit) xs x ys w w1 e w2 :
  for_each body xs w = Returned tt w1 ->
  body x w1 = Raised e w2 ->
  for_each body (xs ++ x :: ys) w = Raised e w2.
Proof.
  intros Hxs Hx. rewrite for_each_app. unfold mbind, action_bind.
  rewrite Hxs. cbn [for_each]. unfold mbind, action_bind. by rewrite Hx.
Qed.

(** Conversely, a loop that raised did so at one of its elements, after
    the body had returned on every element before it. *)
Lemma for_each_raised_inv {X} (body : X -> action W unit) xs w e w2 :
  for_each body xs w = Raised e w2 ->
  exists xs1 x xs2 w1,
    xs = xs1 ++ x :: xs2 /\
    for_each body xs1 w = Returned tt w1 /\
    body x w1 = Raised e w2.
Proof.
  revert w. induction xs as [|x xs IH]; intros w; [done|].
  cbn [for_each]. unfold mbind, action_bind.
  destruct (body x w) as [[] w'|e' w'] eqn:Hx.
  - intros H. apply IH in H as (xs1 & y & xs2 & w1 & -> & Hxs1 & Hy).
    exists (x :: xs1), y, xs2, w1. split; [done|]. split; [|done].
    cbn [for_each]. unfold mbind, action_bind. by rewrite Hx.
  - intros [= -> ->]. by exists [], x, xs, w.
Qed.

Lemma for_each_returned_pipe functions segments w w' :
  for_each (fun segment =>
    for_each (fun function : operation W ref => function segment) functions)
    segments w = Returned tt w' ->
  pipe functions segments w = Returned segments w'.
Proof. intros H. unfold pipe, pipeline, mbind, action_bind. by rewrite H. Qed.

Lemma segment_major_cons functions segment segments :
  segment_major functions (segment :: segments)
  = map (pair segment) functions ++ segment_major functions segments.
Proof.
  unfold segment_major. cbn [mbind list_bind]. f_equal.
Qed.

Lemma length_segment_major functions segments :
  length (segment_major functions segments)
  = (length segments * length functions)%nat.
Proof.
  induction segments as [|segment segments IH]; [done|].
  rewrite segment_major_cons, length_app, length_map, IH. cbn [length]. lia.
Qed.

Lemma lookup_segment_major functions segments i j segment function :
  segments !! i = Some segment ->
  functions !! j = Some function ->
  segment_major functions segments !! (i * length functions + j)%nat
  = Some (segment, function).
Proof.
  intros Hi Hj. pose proof (lookup_lt_Some _ _ _ Hj) as Hlt.
  revert i Hi. induction segments as [|s0 segments IH]; intros i Hi; [done|].
  rewrite segment_major_cons. destruct i as [|i]; cbn in Hi.
  - injection Hi as ->. rewrite lookup_app_l by (rewrite length_map; lia).
    cbn [Nat.mul Nat.add]. by rewrite list_lookup_fmap, Hj.
  - rewrite lookup_app_r by (rewrite length_map; lia).
    rewrite length_map.
    replace (S i * length functions + j - length functions)%nat
      with (i * length functions + j)%nat by lia.
    by apply IH.
Qed.

(** The nested loops perform the calls of [segment_major], in that order. *)
Lemma nested_loops_run_segment_major functions segments w :
  for_each (fun segment =>
    for_each (fun function : operation W ref => function segment) functions)
    segments w
  = run_calls (segment_major functions segments) w.
Proof.
  unfold run_calls. revert w.
  induction segments as [|segment segments IH]; intros w; [done|].
  rewrite segment_major_cons, for_each_app. cbn [for_each].
  unfold mbind, action_bind. rewrite for_each_map. cbn [fst snd].
  destruct (for_each _ functions w) as [[] w'|e w']; [|done]. apply IH.
Qed.

(** [pipeline] on one segment more. *)
Lemma pipeline_calls functions segments w :
  pipe functions segments w
  = (run_calls (segment_major functions segments);; mret segments) w.
Proof.
  unfold pipe, pipeline, mbind, action_bind.
  by rewrite nested_loops_run_segment_major.
Qed.

Lemma pipe_returned functions segments w r w' :
  pipe functions segments w = Returned r w' ->
  r = segments /\
  run_calls (segment_major functions segments) w = Returned tt w'.
Proof.
  rewrite pipeline_calls. unfold mbind, action_bind.
  destruct (run_calls _ w) as [[] w1|e w1]; [|done].
  unfold mret, action_ret. by intros [= <- <-].
Qed.

End PipeFacts.

Section PipeClaims.
Context {W ref : Type}.
Implicit Types (functions : list (operation W ref)) (segments : list ref).
Implicit Types (w : W).

Lemma segment_major_app functions segments1 segments2 :
  segment_major functions (segments1 ++ segments2)
  = segment_major functions segments1 ++ segment_major functions segments2.
Proof.
  induction segments1 as [|s segments1 IH]; [done|].
  cbn [app]. rewrite !segment_major_cons, IH. by rewrite app_assoc.
Qed.

Lemma segment_major_one functions segment :
  segment_major functions [segment] = map (pair segment) functions.
Proof. rewrite segment_major_cons. apply app_nil_r. Qed.

Lemma perform_run_calls (calls : list (ref * operation W ref)) w :
  perform calls w = run_calls calls w.
Proof.
  unfold run_calls. revert w. induction calls as [|c calls IH]; intros w; [done|].
  cbn [perform for_each]. unfold mbind, action_bind.
  destruct (c.2 c.1 w) as [[] w'|e w']; [|done]. apply IH.
Qed.

Lemma segment_major_stages_cons n segment segments :
  segment_major_stages n (segment :: segments)
  = map (pair segment) (seq 0 n) ++ segment_major_stages n segments.
Proof. unfold segment_major_stages. cbn [mbind list_bind]. f_equal. Qed.

Lemma length_segment_major_stages n segments :
  length (segment_major_stages n segments) = (length segments * n)%nat.
Proof.
  induction segments as [|segment segments IH]; [done|].
  rewrite segment_major_stages_cons, length_app, length_map, length_seq, IH.
  cbn [length]. lia.
Qed.

Lemma logged_returned j (f : operation W ref) segment w log w1 :
  f segment w = Returned tt w1 ->
  logged j f segment (w, log) = Returned tt (w1, log ++ [(segment, j)]).
Proof. intros Hf. unfold logged. cbn [fst snd]. by rewrite Hf. Qed.

Lemma logged_raised j (f : operation W ref) segment w log e w1 :
  f segment w = Raised e w1 ->
  logged j f segment (w, log) = Raised e (w1, log ++ [(segment, j)]).
Proof. intros Hf. unfold logged. cbn [fst snd]. by rewrite Hf. Qed.

(** The inner loop with logged operations: it runs as the inner loop
    does, and the log grows by one entry for each call made, in the
    order of the operations. *)
Lemma logged_functions functions : forall j0 segment w log,
  match for_each (fun f : operation W ref => f segment) functions w with
  | Returned _ w' =>
      for_each (fun f : operation (W * list (ref * nat)) ref => f segment)
        (imap (fun j => logged (j0 + j)) functions) (w, log)
      = Returned tt
          (w', log ++ map (pair segment) (seq j0 (length functions)))
  | Raised e w' =>
      exists k,
        (k < length functions)%nat /\
        for_each (fun f : operation (W * list (ref * nat)) ref => f segment)
          (imap (fun j => logged (j0 + j)) functions) (w, log)
        = Raised e
            (w', log ++ take (S k)
                          (map (pair segment) (seq j0 (length functions))))
  end.
Proof.
  induction functions as [|f functions IH]; intros j0 segment w log.
  - cbn. by rewrite app_nil_r.
  - rewrite imap_cons. cbn [for_each length seq map]. unfold mbind, action_bind.
    rewrite Nat.add_0_r.
    destruct (f segment w) as [[] w1|e w1] eqn:Hf.
    2: { exists 0%nat. split; [lia|]. by rewrite (logged_raised _ _ _ _ _ _ _ Hf). }
    rewrite !(logged_returned _ _ _ _ _ _ Hf).
    + rewrite (imap_ext _ (fun j => logged (S j0 + j)) functions)
        by (intros; cbn; by rewrite Nat.add_succ_r).
      specialize (IH (S j0) segment w1 (log ++ [(segment, j0)])).
      destruct (for_each _ functions w1) as [[] w2|e w2].
      * rewrite <- app_assoc in IH. exact IH.
      * destruct IH as (k & Hk & IH). exists (S k). split; [lia|].
        rewrite <- app_assoc in IH. exact IH.
Qed.

(** The same for the loop over the segments. *)
Lemma logged_segments functions segments : forall w log,
  match
    for_each (fun segment =>
      for_each (fun f : operation W ref => f segment) functions) segments w
  with
  | Returned _ w' =>
      for_each (fun segment =>
        for_each (fun f : operation (W * list (ref * nat)) ref => f segment)
          (imap logged functions)) segments (w, log)
      = Returned tt
          (w', log ++ segment_major_stages (length functions) segments)
  | Raised e w' =>
      exists k,
        (k < length segments * length functions)%nat /\
        for_each (fun segment =>
          for_each (fun f : operation (W * list (ref * nat)) ref => f segment)
            (imap logged functions)) segments (w, log)
        = Raised e
            (w', log ++ take (S k)
                          (segment_major_stages (length functions) segments))
  end.
Proof.
  induction segments as [|segment segments IH]; intros w log.
  - cbn. by rewrite app_nil_r.
  - rewrite segment_major_stages_cons. cbn [for_each length].
    unfold mbind, action_bind.
    pose proof (logged_functions functions 0 segment w log) as Hinner.
    change (imap (fun j => logged (0 + j)) functions)
      with (imap logged functions) in Hinner.
    destruct (for_each _ functions w) as [[] w1|e w1].
    + rewrite Hinner.
      specialize (IH w1 (log ++ map (pair segment) (seq 0 (length functions)))).
      destruct (for_each _ segments w1) as [[] w2|e w2].
      * rewrite <- app_assoc in IH. exact IH.
      * destruct IH as (k & Hk & IH).
        exists (length functions + k)%nat. split; [lia|].
        rewrite <- Nat.add_succ_r, take_app_add'
          by (by rewrite length_map, length_seq).
        rewrite <- app_assoc in IH. exact IH.
    + destruct Hinner as (k & Hk & Hinner). exists k. split; [lia|].
      rewrite take_app_le by (rewrite length_map, length_seq; lia).
      by rewrite Hinner.
Qed.

(** C1: [pipe] applies the operations segment-major.

    Running the pipeline is performing the calls of [segment_major] one
    after the other, each call once and up to the first that raises, and
    then returning the sequence it was given.  That list has one call for
    each pair of a segment and an operation, and the call of the [j]-th
    operation on the [i]-th segment stands at position
    [i * (number of operations) + j]: after every call on the segments
    before it and after the calls of the operations declared before it
    on the same segment.

    The same, observed: when every operation is made to log its calls,
    a run that returns leaves, beside the world of the plain run, the
    log of all pairs in segment-major order, every pair once; a run that
    raises leaves a non-empty initial part of that log, which ends with
    the call that raised. *)
Theorem pipe_segment_major functions segments :
  (forall w,
     pipe functions segments w
     = match perform (segment_major functions segments) w with
       | Returned _ w' => Returned segments w'
       | Raised e w' => Raised e w'
       end) /\
  length (segment_major functions segments)
    = (length segments * length functions)%nat /\
  (forall i j segment function,
     segments !! i = Some segment ->
     functions !! j = Some function ->
     segment_major functions segments !! (i * length functions + j)%nat
     = Some (segment, function)) /\
  (forall w log,
     match pipe functions segments w with
     | Returned _ w' =>
         pipe (imap logged functions) segments (w, log)
         = Returned segments
             (w', log ++ segment_major_stages (length functions) segments)
     | Raised e w' =>
         exists k,
           (k < length segments * length functions)%nat /\
           pipe (imap logged functions) segments (w, log)
           = Raised e
               (w', log ++ take (S k)
                             (segment_major_stages (length functions) segments))
     end).
Proof.
  split; [|split; [|split]].
  - intros w. rewrite pipeline_calls, perform_run_calls.
    unfold mbind, action_bind. by destruct (run_calls _ w) as [[] w'|e w'].
  - apply length_segment_major.
  - apply lookup_segment_major.
  - intros w log. pose proof (logged_segments functions segments w log) as Hlog.
    unfold pipe, pipeline, mbind, action_bind, mret, action_ret.
    destruct (for_each _ segments w) as [[] w'|e w'].
    + by rewrite Hlog.
    + destruct Hlog as (k & Hk & ->). by exists k.
Qed.

(** C7: a raise aborts the batch.  Let the pipeline return on the
    segments before [segment], and let the operations declared before
    [function] return on [segment]; if [function] then raises on
    [segment], the pipeline raises the same exception and returns
    nothing, and the world it leaves is the one the failing call left:
    the operations declared after [function] and the segments after
    [segment], whatever they are, take no part. *)
Theorem pipe_aborts_at_first_raise
    functions1 function functions2 segments1 segment segments2 w w0 w1 e w2 :
  pipe (functions1 ++ function :: functions2) segments1 w
    = Returned segments1 w0 ->
  pipe functions1 [segment] w0 = Returned [segment] w1 ->
  function segment w1 = Raised e w2 ->
  pipe (functions1 ++ function :: functions2)
       (segments1 ++ segment :: segments2) w
    = Raised e w2.
Proof.
  intros Hbefore Hsame Hraise.
  apply pipe_returned in Hbefore as [_ Hbefore].
  apply pipe_returned in Hsame as [_ Hsame].
  rewrite segment_major_one in Hsame.
  rewrite pipeline_calls. unfold mbind at 1. unfold action_bind.
  rewrite segment_major_app, segment_major_cons, map_app. cbn [map].
  rewrite <- !app_assoc, app_assoc. cbn [app].
  unfold run_calls in *.
  assert (for_each (fun c : ref * operation W ref => c.2 c.1)
            (segment_major (functions1 ++ function :: functions2) segments1
             ++ map (pair segment) functions1) w
          = Returned tt w1) as Hprefix.
  { rewrite for_each_app. unfold mbind, action_bind. by rewrite Hbefore. }
  by rewrite (for_each_raise _ _ (segment, function) _ _ _ _ _ Hprefix Hraise).
Qed.

End PipeClaims.

Lemma pipe_aborts_at_first_raise_witness :
  pipe [recorder 0; failing_recorder 1 ValueError; recorder 2]
       [10; 20; 30]%nat []
  = Raised ValueError [(10, 0); (10, 1)]%nat.
Proof.
  apply (pipe_aborts_at_first_raise
           [recorder 0] (failing_recorder 1 ValueError) [recorder 2]
           [] 10%nat [20; 30]%nat [] [] [(10, 0)]%nat);
    reflexivity.
Defined.

(** ** The order of calls, observed *)

(** With stages that only record their calls, the log [pipe] leaves is
    the segment-major listing of the pairs. *)
Lemma pipe_recorders_log n segments log :
  pipe (map recorder (seq 0 n)) segments log
  = Returned segments
      (log ++ (segment ← segments; stage ← seq 0 n; [(segment, stage)])).
Proof.
  rewrite pipeline_calls. unfold mbind at 1. unfold action_bind.
  enough (run_calls (segment_major (map recorder (seq 0 n)) segments) log
          = Returned tt
              (log ++ (segment ← segments; stage ← seq 0 n; [(segment, stage)])))
    as -> by done.
  revert log. induction segments as [|s segments IH]; intros log.
  - cbn. by rewrite app_nil_r.
  - rewrite segment_major_cons. unfold run_calls in *.
    rewrite for_each_app. unfold mbind at 1. unfold action_bind.
    assert (forall stages l,
              for_each (fun c : nat * operation (list (nat * nat)) nat => c.2 c.1)
                (map (pair s) (map recorder stages)) l
              = Returned tt (l ++ map (pair s) stages)) as Hone.
    { induction stages as [|j stages IHs]; intros l.
      - cbn. by rewrite app_nil_r.
      - cbn [map for_each]. unfold mbind, action_bind. cbn [fst snd recorder].
        rewrite IHs. by rewrite <- app_assoc. }
    rewrite Hone, IH. cbn [mbind list_bind]. by rewrite <- app_assoc.
Qed.

(** Two stages on two segments: all stages for the first segment come
    before any stage for the second; the stage-major order would differ. *)
Example pipe_two_by_two :
  pipe [recorder 0; recorder 1] [0; 1]%nat []
    = Returned [0; 1]%nat [(0, 0); (0, 1); (1, 0); (1, 1)]%nat /\
  run_calls (stage_major [recorder 0; recorder 1] [0; 1]%nat) []
    = Returned tt [(0, 0); (1, 0); (0, 1); (1, 1)]%nat.
Proof. split; reflexivity. Qed.

(** An empty batch is a no-op: no operation is called and the empty
    sequence is returned. *)
Lemma pipe_empty {W ref} (functions : list (operation W ref)) (w : W) :
  pipe functions [] w = Returned [] w.
Proof. reflexivity. Qed.

(** When the pipeline returns, it returns the sequence it was given. *)
Lemma pipe_returns_its_argument {W ref}
    (functions : list (operation W ref)) (segments r : list ref) (w w' : W) :
  pipe functions segments w = Returned r w' -> r = segments.
Proof. intros H. by apply pipe_returned in H as [-> _]. Qed.

Lemma pipe_returns_its_argument_witness :
  exists r log,
    pipe [recorder 0; recorder 1] [10; 20]%nat [] = Returned r log /\
    r = [10; 20]%nat.
Proof.
  eexists _, _. split; [reflexivity|].
  apply (pipe_returns_its_argument
           [recorder 0; recorder 1] [10; 20]%nat _ [] _ eq_refl).
Defined.

(** Every failing run has this shape: there is a first call that raises,
    everything before it returned, and the exception and the world of the
    run are those of that call. *)
Lemma pipe_raised_inv {W ref}
    (functions : list (operation W ref)) (segments : list ref) (w : W) e w2 :
  pipe functions segments w = Raised e w2 ->
  exists functions1 function functions2 segments1 segment segments2 w0 w1,
    functions = functions1 ++ function :: functions2 /\
    segments = segments1 ++ segment :: segments2 /\
    pipe functions segments1 w = Returned segments1 w0 /\
    pipe functions1 [segment] w0 = Returned [segment] w1 /\
    function segment w1 = Raised e w2.
Proof.
  unfold pipe at 1. unfold pipeline, mbind, action_bind.
  destruct (for_each _ segments w) as [[] w'|e' w'] eqn:Houter; [done|].
  intros [= -> ->].
  apply for_each_raised_inv in Houter
    as (segments1 & segment & segments2 & w0 & -> & Hbefore & Hinner).
  apply for_each_raised_inv in Hinner
    as (functions1 & function & functions2 & w1 & -> & Hsame & Hraise).
  exists functions1, function, functions2, segments1, segment, segments2, w0, w1.
  split; [done|]. split; [done|].
  split; [by apply for_each_returned_pipe|]. split; [|done].
  apply for_each_returned_pipe. cbn [for_each]. unfold mbind, action_bind.
  by rewrite Hsame.
Qed.

Lemma pipe_raised_inv_witness :
  exists functions1 function functions2 segments1 segment segments2 w0 w1,
    [recorder 0; failing_recorder 1 ValueError; recorder 2]
      = functions1 ++ function :: functions2 /\
    [10; 20; 30]%nat = segments1 ++ segment :: segments2 /\
    pipe [recorder 0; failing_recorder 1 ValueError; recorder 2] segments1 []
      = Returned segments1 w0 /\
    pipe functions1 [segment] w0 = Returned [segment] w1 /\
    function segment w1 = Raised ValueError [(10, 0); (10, 1)]%nat.
Proof.
  apply (pipe_raised_inv
           [recorder 0; failing_recorder 1 ValueError; recorder 2]
           [10; 20; 30]%nat [] ValueError [(10, 0); (10, 1)]%nat).
  reflexivity.
Defined.

(** ** The pipeline of [main] *)

Section MainFacts.
Context {rng : Type} (randbelow : Z -> rng -> Z * rng).
Context (attach_to_segment detect_speaker transfer_keyframe_style
           : operation (world rng) nat).

(** Six calls per segment, all six on a segment before the first one on
    the next. *)
Lemma main_pipeline_segment_major segments w :
  main_pipeline randbelow attach_to_segment detect_speaker
    transfer_keyframe_style segments w
  = (run_calls
       (segment_major
          (main_functions randbelow attach_to_segment detect_speaker
             transfer_keyframe_style) segments);;
     mret segments) w.
Proof. apply pipeline_calls. Qed.

Lemma main_pipeline_call_count segments :
  length (segment_major
            (main_functions randbelow attach_to_segment detect_speaker
               transfer_keyframe_style) segments)
  = (length segments * 6)%nat.
Proof. by rewrite length_segment_major. Qed.

End MainFacts.

(** Two of [main]'s own stages on a store of three segments, the second
    of which has no key frame yet: the crop raises on it.  The first
    segment was cropped and packaged before that and stays so; the
    second was not packaged; the third was not touched. *)
Example crop_failure_aborts_batch :
  match
    pipe [in_place crop_keyframe; in_place convert_keyframe_to_obj]
      [0; 1; 2]%nat
      (mk_world
         (<[0%nat := detected frame4 bbox_far]>
            (<[1%nat := attached [frame4]]>
               (fun _ => detected frame4 bbox_near)))
         tt)
  with
  | Returned _ _ => False
  | Raised e w' =>
      e = AttributeError /\
      (Np.shape0 <$> Segment.keyframe (objects w' 0%nat)) = Some 3 /\
      (ImageData.image_data_matrix <$> Segment.image (objects w' 0%nat))
        = Some (Segment.keyframe (objects w' 0%nat)) /\
      objects w' 1%nat = attached [frame4] /\
      objects w' 2%nat = detected frame4 bbox_near
  end.
Proof. by_evaluation. Qed.

(** ** Integer indexing and [detect_speaker] *)

Section Indexing.
Context {A : Type}.
Implicit Types (l : list A) (k : Z).

Lemma getitem_int_in_range l k :
  - Z.of_nat (length l) <= k < Z.of_nat (length l) ->
  exists x,
    l !! Z.to_nat (k mod Z.of_nat (length l)) = Some x /\
    getitem_int l k = Ok x.
Proof.
  intros Hk. unfold getitem_int. cbv zeta.
  set (n := Z.of_nat (length l)) in *.
  assert (k mod n = if Z.ltb k 0 then k + n else k) as Hmod.
  { destruct (Z.ltb_spec k 0).
    - symmetry. apply Z.mod_unique with (-1); lia.
    - apply Z.mod_small. lia. }
  rewrite <- Hmod.
  assert (0 <= k mod n < n) as Hi by (apply Z.mod_pos_bound; lia).
  destruct (Z.ltb_spec (k mod n) 0); [lia|].
  destruct (Z.leb_spec n (k mod n)); [lia|]. cbn [orb].
  destruct (l !! Z.to_nat (k mod n)) as [x|] eqn:Hx; [by exists x|].
  apply lookup_ge_None in Hx. lia.
Qed.

Lemma getitem_int_out_of_range l k :
  ~ (- Z.of_nat (length l) <= k < Z.of_nat (length l)) ->
  getitem_int l k = Raise IndexError.
Proof.
  intros Hk. unfold getitem_int. cbv zeta.
  destruct (Z.ltb_spec k 0).
  - destruct (Z.ltb_spec (k + Z.of_nat (length l)) 0); [done|lia].
  - destruct (Z.ltb_spec k 0); [lia|].
    destruct (Z.leb_spec (Z.of_nat (length l)) k); [done|lia].
Qed.

Lemma getitem_int_nonneg l k :
  0 <= k < Z.of_nat (length l) ->
  exists x, l !! Z.to_nat k = Some x /\ getitem_int l k = Ok x.
Proof.
  intros Hk. destruct (getitem_int_in_range l k) as (x & Hx & Hget); [lia|].
  rewrite Z.mod_small in Hx by lia. by exists x.
Qed.

End Indexing.

Section DetectSpeaker.
Context (detect_unset : action Segment.t unit).
Implicit Types (s : Segment.t).
Implicit Types (find : Np.ndarray -> result (option (Q * Q) * option BBox.t)).

(** What [detect_speaker] leaves once the key frame [kf] was picked and
    handed to [find]. *)
Lemma detect_speaker_at s frames k kf find :
  Segment.frames s = Some frames ->
  Segment.keyframe_index s = Some k ->
  getitem_int frames k = Ok kf ->
  detect_speaker (Ok find) detect_unset s
  = match find kf with
    | Ok found =>
        Returned tt
          (set_speakers_bbox found.2
             (set_speaker_location found.1 (Segment.set_keyframe kf s)))
    | Raise e => Raised e (Segment.set_keyframe kf s)
    end.
Proof.
  intros Hf Hk Hget. unfold detect_speaker.
  unfold mbind, action_bind, call, get_state. rewrite Hf, Hk, Hget.
  cbn beta iota. unfold modify. by destruct (find kf) as [[location bbox]|e].
Qed.

(** [detect_speaker], by the index it finds in [keyframe_index].  An
    index inside [-n .. n-1] picks the frame at that index modulo [n];
    if the detector then raises, the segment keeps the key frame just
    assigned and its former location and box.  Any other index raises
    [IndexError] and leaves the segment as it was, and so does a failing
    detector constructor, with its own exception. *)
Theorem detect_speaker_by_index face_detector s frames k :
  Segment.frames s = Some frames ->
  Segment.keyframe_index s = Some k ->
  match face_detector with
  | Raise e => detect_speaker face_detector detect_unset s = Raised e s
  | Ok find =>
      (- Z.of_nat (length frames) <= k < Z.of_nat (length frames) ->
       exists kf,
         frames !! Z.to_nat (k mod Z.of_nat (length frames)) = Some kf /\
         detect_speaker face_detector detect_unset s
         = match find kf with
           | Ok found =>
               Returned tt
                 (set_speakers_bbox found.2
                    (set_speaker_location found.1 (Segment.set_keyframe kf s)))
           | Raise e => Raised e (Segment.set_keyframe kf s)
           end) /\
      (~ (- Z.of_nat (length frames) <= k < Z.of_nat (length frames)) ->
       detect_speaker face_detector detect_unset s = Raised IndexError s)
  end.
Proof.
  intros Hf Hk. destruct face_detector as [find|e]; [|done].
  split.
  - intros Hin. destruct (getitem_int_in_range frames k Hin) as (kf & Hkf & Hget).
    exists kf. split; [done|]. by apply (detect_speaker_at s frames k).
  - intros Hout. unfold detect_speaker.
    unfold mbind, action_bind, call, get_state. rewrite Hf, Hk.
    by rewrite getitem_int_out_of_range.
Qed.

End DetectSpeaker.

(** ** The six stages of [main] on a store *)

Section Steps.
Context {W : Type}.

Lemma for_each_cons_returned {X} (body : X -> action W unit) x xs w w1 :
  body x w = Returned tt w1 ->
  for_each body (x :: xs) w = for_each body xs w1.
Proof.
  intros H. cbn [for_each]. unfold mbind, action_bind. by rewrite H.
Qed.

Lemma for_each_cons_raised {X} (body : X -> action W unit) x xs w e w1 :
  body x w = Raised e w1 ->
  for_each body (x :: xs) w = Raised e w1.
Proof.
  intros H. cbn [for_each]. unfold mbind, action_bind. by rewrite H.
Qed.

(** The same for the inner loop of [pipeline], whose body calls the
    function on the segment. *)
Lemma functions_cons_returned {ref} (function : operation W ref) functions
    segment w w1 :
  function segment w = Returned tt w1 ->
  for_each (fun f : operation W ref => f segment) (function :: functions) w
  = for_each (fun f : operation W ref => f segment) functions w1.
Proof. apply (for_each_cons_returned (fun f : operation W ref => f segment)). Qed.

Lemma functions_cons_raised {ref} (function : operation W ref) functions
    segment w e w1 :
  function segment w = Raised e w1 ->
  for_each (fun f : operation W ref => f segment) (function :: functions) w
  = Raised e w1.
Proof. apply (for_each_cons_raised (fun f : operation W ref => f segment)). Qed.

End Steps.

Section Lifts.
Context {rng : Type}.
Implicit Types (w : world rng) (r : nat) (s : Segment.t).

Lemma in_place_returned stage r w s s' :
  objects w r = s ->
  stage s = Ok s' ->
  exists w',
    in_place stage r w = Returned tt w' /\
    objects w' r = s' /\
    generator w' = generator w /\
    forall r', r' <> r -> objects w' r' = objects w r'.
Proof.
  intros <- Hs. unfold in_place. rewrite Hs. eexists. split; [done|].
  cbn [objects generator]. split; [apply fn_lookup_insert|]. split; [done|].
  intros r' Hr'. by apply fn_lookup_insert_ne.
Qed.

Lemma in_place_raised stage r w s e :
  objects w r = s ->
  stage s = Raise e ->
  in_place stage r w = Raised e w.
Proof. intros <- Hs. unfold in_place. by rewrite Hs. Qed.

Lemma in_object_returned (stage : action Segment.t unit) r w s s' :
  objects w r = s ->
  stage s = Returned tt s' ->
  exists w',
    in_object stage r w = Returned tt w' /\
    objects w' r = s' /\
    generator w' = generator w /\
    forall r', r' <> r -> objects w' r' = objects w r'.
Proof.
  intros <- Hs. unfold in_object. rewrite Hs. eexists. split; [done|].
  cbn [objects generator]. split; [apply fn_lookup_insert|]. split; [done|].
  intros r' Hr'. by apply fn_lookup_insert_ne.
Qed.

Lemma in_object_raised (stage : action Segment.t unit) r w s e s' :
  objects w r = s ->
  stage s = Raised e s' ->
  exists w',
    in_object stage r w = Raised e w' /\
    objects w' r = s' /\
    generator w' = generator w /\
    forall r', r' <> r -> objects w' r' = objects w r'.
Proof.
  intros <- Hs. unfold in_object. rewrite Hs. eexists. split; [done|].
  cbn [objects generator]. split; [apply fn_lookup_insert|]. split; [done|].
  intros r' Hr'. by apply fn_lookup_insert_ne.
Qed.

Lemma get_key_frame_index_op_returned (randbelow : Z -> rng -> Z * rng)
    r w s s' g' :
  objects w r = s ->
  get_key_frame_index randbelow s (generator w) = Ok (s', g') ->
  exists w',
    get_key_frame_index_op randbelow r w = Returned tt w' /\
    objects w' r = s' /\
    forall r', r' <> r -> objects w' r' = objects w r'.
Proof.
  intros <- Hs. unfold get_key_frame_index_op. rewrite Hs.
  eexists. split; [done|].
  cbn [objects]. split; [apply fn_lookup_insert|].
  intros r' Hr'. by apply fn_lookup_insert_ne.
Qed.

Lemma get_key_frame_index_op_raised (randbelow : Z -> rng -> Z * rng)
    r w s e :
  objects w r = s ->
  get_key_frame_index randbelow s (generator w) = Raise e ->
  get_key_frame_index_op randbelow r w = Raised e w.
Proof. intros <- Hs. unfold get_key_frame_index_op. by rewrite Hs. Qed.

End Lifts.

Section Selection.
Context {rng : Type} (randbelow : Z -> rng -> Z * rng).
Hypothesis randbelow_range :
  forall n g, 0 < n -> 0 <= (randbelow n g).1 < n.
Implicit Types (s : Segment.t).

Lemma get_key_frame_index_no_frame s g :
  Segment.frames s = Some [] ->
  get_key_frame_index randbelow s g = Raise ValueError.
Proof.
  intros Hf. unfold get_key_frame_index. rewrite Hf.
  cbn [attr mbind result_bind length]. by rewrite randint_empty.
Qed.

Lemma get_key_frame_index_some s frames g :
  Segment.frames s = Some frames ->
  frames <> [] ->
  exists k g' kf,
    get_key_frame_index randbelow s g
      = Ok (Segment.set_keyframe_index k s, g') /\
    0 <= k < Z.of_nat (length frames) /\
    frames !! Z.to_nat k = Some kf /\
    getitem_int frames k = Ok kf.
Proof.
  intros Hf Hne. unfold get_key_frame_index. rewrite Hf.
  cbn [attr mbind result_bind].
  destruct (randint_range randbelow randbelow_range
              0 (Z.of_nat (length frames) - 1) g) as (k & g' & -> & Hk).
  { destruct frames; [done|]. cbn [length]. lia. }
  destruct (getitem_int_nonneg frames k) as (kf & Hkf & Hget); [lia|].
  exists k, g', kf. split; [done|]. split; [lia|]. done.
Qed.

(** Selection, then detection: on a segment with at least one frame,
    [get_key_frame_index] leaves an index with which the indexing in
    [detect_speaker] does not raise; the key frame handed to the detector
    is the frame of the segment at that index. *)
Theorem key_frame_is_a_frame find detect_unset s frames g :
  Segment.frames s = Some frames ->
  frames <> [] ->
  exists k g' kf,
    get_key_frame_index randbelow s g
      = Ok (Segment.set_keyframe_index k s, g') /\
    frames !! Z.to_nat k = Some kf /\
    kf ∈ frames /\
    detect_speaker (Ok find) detect_unset (Segment.set_keyframe_index k s)
    = match find kf with
      | Ok found =>
          Returned tt
            (set_speakers_bbox found.2
               (set_speaker_location found.1
                  (Segment.set_keyframe kf (Segment.set_keyframe_index k s))))
      | Raise e =>
          Raised e (Segment.set_keyframe kf (Segment.set_keyframe_index k s))
      end.
Proof.
  intros Hf Hne.
  destruct (get_key_frame_index_some s frames g Hf Hne)
    as (k & g' & kf & Hsel & Hk & Hkf & Hget).
  exists k, g', kf. split; [done|]. split; [done|].
  split; [by eapply list_elem_of_lookup_2|].
  by apply (detect_speaker_at detect_unset _ frames k).
Qed.

End Selection.

Section MainRun.
Context {rng : Type} (randbelow : Z -> rng -> Z * rng).
Hypothesis randbelow_range :
  forall n g, 0 < n -> 0 <= (randbelow n g).1 < n.
Context (get_frames : Q -> Q -> result (list Np.ndarray)).
Context (face_detector
           : result (Np.ndarray -> result (option (Q * Q) * option BBox.t))).
Context (style_transfer : result (Np.ndarray -> result Np.ndarray)).
Context (detect_unset transfer_unset : action Segment.t unit).
Implicit Types (w : world rng) (r : nat) (s : Segment.t).

Local Abbreviation stages :=
  (main_stages randbelow get_frames face_detector style_transfer
     detect_unset transfer_unset).
Local Abbreviation on_segment :=
  (fun segment : nat =>
     for_each (fun function : operation (world rng) nat => function segment)
       stages).
Local Abbreviation is_packaged :=
  (packaged get_frames face_detector style_transfer).
Local Abbreviation is_detectable := (detectable get_frames face_detector).

Lemma transfer_keyframe_style_at transfer s kf styled :
  style_transfer = Ok transfer ->
  Segment.keyframe s = Some kf ->
  transfer kf = Ok styled ->
  transfer_keyframe_style style_transfer transfer_unset s
  = Returned tt (Segment.set_keyframe styled s).
Proof.
  intros Hst Hk Hstyled. unfold transfer_keyframe_style. rewrite Hst.
  unfold mbind, action_bind, call, get_state. by rewrite Hk, Hstyled.
Qed.

Lemma packaged_interval a b s :
  is_packaged a b s -> Segment.start s = a /\ Segment.end_ s = b.
Proof. by intros (? & ? & ? & ? & ? & ? & ? & ? & _ & _ & _ & _ & _ & _ & _ & ->). Qed.

(** The first two stages on a segment whose interval yields [frames]. *)
Lemma attach_step r w frames :
  get_frames (Segment.start (objects w r)) (Segment.end_ (objects w r))
    = Ok frames ->
  exists w1,
    in_place (attach_frames get_frames) r w = Returned tt w1 /\
    objects w1 r = set_frames frames (objects w r) /\
    generator w1 = generator w /\
    forall r', r' <> r -> objects w1 r' = objects w r'.
Proof.
  intros Hgf. apply (in_place_returned _ r w (objects w r)); [done|].
  unfold attach_frames. by rewrite Hgf.
Qed.

(** All six stages on one segment, when everything goes well. *)
Lemma stages_package r w :
  is_detectable (Segment.start (objects w r)) (Segment.end_ (objects w r)) ->
  styles_everything style_transfer ->
  exists w',
    on_segment r w = Returned tt w' /\
    is_packaged (Segment.start (objects w r)) (Segment.end_ (objects w r))
      (objects w' r) /\
    forall r', r' <> r -> objects w' r' = objects w r'.
Proof.
  intros (frames & find & Hgf & Hne & Hfd & Hfind) (transfer & Hst & Hstyle).
  destruct (attach_step r w frames Hgf) as (w1 & E1 & O1 & G1 & F1).
  destruct (get_key_frame_index_some randbelow randbelow_range
              (set_frames frames (objects w r)) frames (generator w1)
              eq_refl Hne)
    as (k & g' & kf & Hsel & Hk & Hkf & Hget).
  destruct (get_key_frame_index_op_returned randbelow r w1 _ _ _ O1 Hsel)
    as (w2 & E2 & O2 & F2).
  destruct (Hfind kf) as (location & bbox & Hfound);
    [by eapply list_elem_of_lookup_2|].
  pose proof (detect_speaker_at detect_unset
                (Segment.set_keyframe_index k (set_frames frames (objects w r)))
                frames k kf find eq_refl eq_refl Hget) as Hdet.
  rewrite Hfound in Hdet. cbn [fst snd] in Hdet. rewrite <- Hfd in Hdet.
  destruct (in_object_returned _ r w2 _ _ O2 Hdet) as (w3 & E3 & O3 & G3 & F3).
  pose proof (crop_keyframe_eq (objects w3 r) kf bbox) as Hcrop.
  rewrite O3 in Hcrop. specialize (Hcrop eq_refl eq_refl).
  destruct (in_place_returned crop_keyframe r w3 _ _ O3 Hcrop)
    as (w4 & E4 & O4 & G4 & F4).
  destruct (Hstyle (vertical_pass bbox (horizontal_pass bbox kf)))
    as (styled & Hstyled).
  pose proof (transfer_keyframe_style_at transfer (objects w4 r)
                (vertical_pass bbox (horizontal_pass bbox kf)) styled Hst)
    as Hstage.
  rewrite O4 in Hstage. specialize (Hstage eq_refl Hstyled).
  destruct (in_object_returned _ r w4 _ _ O4 Hstage)
    as (w5 & E5 & O5 & G5 & F5).
  destruct (in_place_returned convert_keyframe_to_obj r w5 _ _ O5 eq_refl)
    as (w6 & E6 & O6 & G6 & F6).
  exists w6. split; [|split].
  - unfold main_stages, main_functions.
    rewrite (functions_cons_returned _ _ _ _ _ E1).
    rewrite (functions_cons_returned _ _ _ _ _ E2).
    rewrite (functions_cons_returned _ _ _ _ _ E3).
    rewrite (functions_cons_returned _ _ _ _ _ E4).
    rewrite (functions_cons_returned _ _ _ _ _ E5).
    by rewrite (functions_cons_returned _ _ _ _ _ E6).
  - exists frames, k, kf, location, bbox, find, transfer, styled.
    repeat (split; [done|]). by rewrite O6.
  - intros r' Hr'. by rewrite F6, F5, F4, F3, F2, F1.
Qed.

(** The loop over a batch in which everything goes well. *)
Lemma batch_packaged segments : forall w,
  (forall r, r ∈ segments ->
     is_detectable (Segment.start (objects w r)) (Segment.end_ (objects w r))) ->
  styles_everything style_transfer ->
  exists w',
    for_each on_segment segments w = Returned tt w' /\
    (forall r, r ∈ segments ->
       is_packaged (Segment.start (objects w r)) (Segment.end_ (objects w r))
         (objects w' r)) /\
    (forall r, r ∉ segments -> objects w' r = objects w r).
Proof.
  induction segments as [|r0 rest IH]; intros w Hdet Hstyle.
  - exists w. split; [done|]. split; [|done]. intros r Hr. by apply elem_of_nil in Hr.
  - destruct (stages_package r0 w) as (w1 & E1 & P1 & F1);
      [apply Hdet; left | done |].
    assert (forall r, Segment.start (objects w1 r) = Segment.start (objects w r) /\
                      Segment.end_ (objects w1 r) = Segment.end_ (objects w r))
      as Hsame.
    { intros r. destruct (decide (r = r0)) as [->|Hr].
      - by apply packaged_interval in P1.
      - by rewrite F1. }
    destruct (IH w1) as (w' & E' & P' & F'); [|done|].
    { intros r Hr. destruct (Hsame r) as [-> ->]. apply Hdet. by right. }
    exists w'. split; [|split].
    + by rewrite (for_each_cons_returned on_segment _ _ _ _ E1).
    + intros r Hr. destruct (decide (r ∈ rest)) as [Hin|Hout].
      * destruct (Hsame r) as [<- <-]. by apply P'.
      * apply elem_of_cons in Hr as [->|Hr]; [|done]. by rewrite F'.
    + intros r Hr. apply not_elem_of_cons in Hr as [Hr0 Hr].
      by rewrite F', F1.
Qed.

(** When every segment of the batch spans an interval that yields at
    least one frame, the detector finds a box in every such frame and the
    style transfer returns on every image, the pipeline of [main]
    returns: every segment of the batch ends packaged, with the styled
    crop of one of its own frames as key frame and image and with the
    box as detected before the crop; no other object is touched. *)
Theorem main_run_packages_every_segment segments w :
  (forall r, r ∈ segments ->
     is_detectable (Segment.start (objects w r)) (Segment.end_ (objects w r))) ->
  styles_everything style_transfer ->
  exists w',
    main_run randbelow get_frames face_detector style_transfer
      detect_unset transfer_unset segments w
      = Returned segments w' /\
    (forall r, r ∈ segments ->
       is_packaged (Segment.start (objects w r)) (Segment.end_ (objects w r))
         (objects w' r)) /\
    (forall r, r ∉ segments -> objects w' r = objects w r).
Proof.
  intros Hdet Hstyle.
  destruct (batch_packaged segments w Hdet Hstyle) as (w' & E & P & F).
  exists w'. split; [|done]. by apply for_each_returned_pipe.
Qed.

(** A segment of the batch whose interval yields no frame: with every
    segment before it going well, the pipeline of [main] raises the
    [ValueError] of [get_key_frame_index] on it.  The segment is left
    with the empty frame array attached and nothing else assigned, the
    segments before it are packaged, and no other object is touched,
    the segments after it included. *)
Theorem main_run_stops_at_segment_without_frames segments1 r segments2 w :
  (forall r', r' ∈ segments1 ->
     is_detectable (Segment.start (objects w r')) (Segment.end_ (objects w r'))) ->
  styles_everything style_transfer ->
  get_frames (Segment.start (objects w r)) (Segment.end_ (objects w r)) = Ok [] ->
  exists w',
    main_run randbelow get_frames face_detector style_transfer
      detect_unset transfer_unset (segments1 ++ r :: segments2) w
      = Raised ValueError w' /\
    objects w' r = set_frames [] (objects w r) /\
    (forall r', r' ∈ segments1 ->
       is_packaged (Segment.start (objects w r')) (Segment.end_ (objects w r'))
         (objects w' r')) /\
    (forall r', r' ∉ segments1 -> r' <> r -> objects w' r' = objects w r').
Proof.
  intros Hdet Hstyle Hgf.
  destruct (batch_packaged segments1 w Hdet Hstyle) as (w1 & E1 & P1 & F1).
  assert (r ∉ segments1) as Hr.
  { intros Hin. destruct (Hdet r Hin) as (frames & find & Hgf' & Hne & _).
    rewrite Hgf in Hgf'. by injection Hgf' as <-. }
  destruct (attach_step r w1 []) as (w2 & E2 & O2 & G2 & F2).
  { by rewrite (F1 r Hr). }
  assert (get_key_frame_index_op randbelow r w2 = Raised ValueError w2) as E3.
  { apply (get_key_frame_index_op_raised randbelow r w2 (objects w2 r));
      [done|].
    rewrite O2. by apply get_key_frame_index_no_frame. }
  assert (on_segment r w1 = Raised ValueError w2) as Hstop.
  { unfold main_stages, main_functions.
    rewrite (functions_cons_returned _ _ _ _ _ E2).
    by rewrite (functions_cons_raised _ _ _ _ _ _ E3). }
  exists w2. split; [|split; [|split]].
  - unfold main_run, pipe, pipeline. unfold mbind at 1. unfold action_bind.
    by rewrite (for_each_raise on_segment segments1 r segments2
                  w w1 ValueError w2 E1 Hstop).
  - by rewrite O2, (F1 r Hr).
  - intros r' Hin. rewrite F2; [by apply P1|]. by intros ->.
  - intros r' Hout Hne. by rewrite F2, F1.
Qed.

(** A segment of the batch in none of whose frames the detector finds a
    box (it returns [None] for it): with every segment before it going
    well, the pipeline of [main] raises the [AttributeError] of
    [crop_keyframe] on it.  The segment is left with a frame of its own
    as key frame, not cropped, and with no box and no image; the
    segments before it are packaged, and no other object is touched. *)
Theorem main_run_stops_when_nobody_is_found segments1 r segments2 w frames find :
  (forall r', r' ∈ segments1 ->
     is_detectable (Segment.start (objects w r')) (Segment.end_ (objects w r'))) ->
  styles_everything style_transfer ->
  get_frames (Segment.start (objects w r)) (Segment.end_ (objects w r))
    = Ok frames ->
  frames <> [] ->
  face_detector = Ok find ->
  (forall kf, kf ∈ frames -> exists location, find kf = Ok (location, None)) ->
  exists w' k kf location,
    main_run randbelow get_frames face_detector style_transfer
      detect_unset transfer_unset (segments1 ++ r :: segments2) w
      = Raised AttributeError w' /\
    frames !! Z.to_nat k = Some kf /\
    objects w' r
      = set_speakers_bbox None
          (set_speaker_location location
             (Segment.set_keyframe kf
                (Segment.set_keyframe_index k
                   (set_frames frames (objects w r))))) /\
    (forall r', r' ∈ segments1 ->
       is_packaged (Segment.start (objects w r')) (Segment.end_ (objects w r'))
         (objects w' r')) /\
    (forall r', r' ∉ segments1 -> r' <> r -> objects w' r' = objects w r').
Proof.
  intros Hdet Hstyle Hgf Hne Hfd Hnone.
  destruct (batch_packaged segments1 w Hdet Hstyle) as (w1 & E1 & P1 & F1).
  assert (r ∉ segments1) as Hr.
  { intros Hin.
    destruct (Hdet r Hin) as (frames' & find' & Hgf' & _ & Hfd' & Hfind).
    rewrite Hgf in Hgf'. injection Hgf' as <-.
    rewrite Hfd in Hfd'. injection Hfd' as <-.
    destruct frames as [|kf0 frames]; [done|].
    destruct (Hfind kf0) as (location & bbox & Hsome); [by left|].
    destruct (Hnone kf0) as (location' & Hnone0); [by left|].
    by rewrite Hsome in Hnone0. }
  destruct (attach_step r w1 frames) as (w2 & E2 & O2 & G2 & F2).
  { by rewrite (F1 r Hr). }
  rewrite (F1 r Hr) in O2.
  destruct (get_key_frame_index_some randbelow randbelow_range
              (set_frames frames (objects w r)) frames (generator w2)
              eq_refl Hne)
    as (k & g' & kf & Hsel & Hk & Hkf & Hget).
  destruct (get_key_frame_index_op_returned randbelow r w2 _ _ _ O2 Hsel)
    as (w3 & E3 & O3 & F3).
  destruct (Hnone kf) as (location & Hfound);
    [by eapply list_elem_of_lookup_2|].
  pose proof (detect_speaker_at detect_unset
                (Segment.set_keyframe_index k (set_frames frames (objects w r)))
                frames k kf find eq_refl eq_refl Hget) as Hdetect.
  rewrite Hfound in Hdetect. cbn [fst snd] in Hdetect.
  rewrite <- Hfd in Hdetect.
  destruct (in_object_returned _ r w3 _ _ O3 Hdetect)
    as (w4 & E4 & O4 & G4 & F4).
  assert (in_place crop_keyframe r w4 = Raised AttributeError w4) as E5.
  { apply (in_place_raised crop_keyframe r w4 (objects w4 r)); [done|].
    rewrite O4. apply crop_keyframe_unset. by right. }
  assert (on_segment r w1 = Raised AttributeError w4) as Hstop.
  { unfold main_stages, main_functions.
    rewrite (functions_cons_returned _ _ _ _ _ E2).
    rewrite (functions_cons_returned _ _ _ _ _ E3).
    rewrite (functions_cons_returned _ _ _ _ _ E4).
    by rewrite (functions_cons_raised _ _ _ _ _ _ E5). }
  exists w4, k, kf, location. split; [|split; [|split; [|split]]].
  - unfold main_run, pipe, pipeline. unfold mbind at 1. unfold action_bind.
    by rewrite (for_each_raise on_segment segments1 r segments2
                  w w1 AttributeError w4 E1 Hstop).
  - done.
  - done.
  - intros r' Hin. rewrite F4, F3, F2; [by apply P1| |  |]; by intros ->.
  - intros r' Hout Hne'. by rewrite F4, F3, F2, F1.
Qed.

End MainRun.

Lemma detect_speaker_by_index_witness :
  exists kf,
    [frame4; frame1] !! 1%nat = Some kf /\
    detect_speaker finds_near unset_raises
      (Segment.set_keyframe_index (-1) (attached [frame4; frame1]))
    = Returned tt
        (set_speakers_bbox (Some bbox_near)
           (set_speaker_location (Some (BBox.center bbox_near))
              (Segment.set_keyframe kf
                 (Segment.set_keyframe_index (-1)
                    (attached [frame4; frame1]))))).
Proof.
  destruct (detect_speaker_by_index unset_raises finds_near
              (Segment.set_keyframe_index (-1) (attached [frame4; frame1]))
              [frame4; frame1] (-1) eq_refl eq_refl) as [Hin _].
  destruct Hin as (kf & Hkf & Hrun); [cbn; lia|].
  exists kf. split; [exact Hkf | exact Hrun].
Defined.

Lemma key_frame_is_a_frame_witness :
  exists k g' kf,
    get_key_frame_index counter_randbelow (attached [frame4; frame1]) 5
      = Ok (Segment.set_keyframe_index k (attached [frame4; frame1]), g') /\
    [frame4; frame1] !! Z.to_nat k = Some kf /\
    kf ∈ [frame4; frame1].
Proof.
  destruct (key_frame_is_a_frame counter_randbelow
              (fun n g Hn => Z.mod_pos_bound g n Hn)
              (fun _ => Ok (None, None)) unset_raises
              (attached [frame4; frame1]) [frame4; frame1] 5 eq_refl)
    as (k & g' & kf & Hsel & Hkf & Hin & _); [discriminate|].
  exists k, g', kf. split; [exact Hsel|]. split; [exact Hkf | exact Hin].
Defined.

(** The example collaborators meet the conditions of the results on
    [main_run] for the two utterances. *)
Lemma two_utterances_detectable r :
  r ∈ [0; 1]%nat ->
  detectable one_per_second finds_near
    (Segment.start (objects two_utterances r))
    (Segment.end_ (objects two_utterances r)).
Proof.
  intros Hr. apply elem_of_cons in Hr as [->|Hr];
    [|apply list_elem_of_singleton in Hr as ->].
  - exists [frame4; frame4], (fun _ => Ok (Some (BBox.center bbox_near), Some bbox_near)).
    split; [reflexivity|]. split; [discriminate|]. split; [reflexivity|].
    intros kf _. eexists _, _. reflexivity.
  - exists [frame4; frame4; frame4],
      (fun _ => Ok (Some (BBox.center bbox_near), Some bbox_near)).
    split; [reflexivity|]. split; [discriminate|]. split; [reflexivity|].
    intros kf _. eexists _, _. reflexivity.
Defined.

Lemma same_style_styles_everything : styles_everything same_style.
Proof.
  exists (fun image => Ok image). split; [reflexivity|].
  intros image. eexists. reflexivity.
Defined.

Lemma main_run_packages_every_segment_witness :
  exists w',
    main_run counter_randbelow one_per_second finds_near same_style
      unset_raises unset_raises [0; 1]%nat two_utterances
      = Returned [0; 1]%nat w' /\
    packaged one_per_second finds_near same_style 0 2 (objects w' 0%nat) /\
    packaged one_per_second finds_near same_style 2 5 (objects w' 1%nat).
Proof.
  destruct (main_run_packages_every_segment counter_randbelow
              (fun n g Hn => Z.mod_pos_bound g n Hn)
              one_per_second finds_near same_style unset_raises unset_raises
              [0; 1]%nat two_utterances
              two_utterances_detectable same_style_styles_everything)
    as (w' & Hrun & Hpack & _).
  exists w'. split; [exact Hrun|]. split.
  - apply (Hpack 0%nat). by left.
  - apply (Hpack 1%nat). right. by left.
Defined.

Lemma main_run_stops_at_segment_without_frames_witness :
  exists w',
    main_run counter_randbelow one_per_second finds_near same_style
      unset_raises unset_raises [0; 1]%nat short_utterance
      = Raised ValueError w' /\
    objects w' 1%nat = set_frames [] (created 2 (5 # 2)).
Proof.
  destruct (main_run_stops_at_segment_without_frames counter_randbelow
              (fun n g Hn => Z.mod_pos_bound g n Hn)
              one_per_second finds_near same_style unset_raises unset_raises
              [0%nat] 1%nat [] short_utterance)
    as (w' & Hrun & Hleft & _).
  - intros r Hr. apply list_elem_of_singleton in Hr as ->.
    exists [frame4; frame4], (fun _ => Ok (Some (BBox.center bbox_near), Some bbox_near)).
    split; [reflexivity|]. split; [discriminate|]. split; [reflexivity|].
    intros kf _. eexists _, _. reflexivity.
  - exact same_style_styles_everything.
  - reflexivity.
  - exists w'. split; [exact Hrun | exact Hleft].
Defined.

Lemma main_run_stops_when_nobody_is_found_witness :
  exists w',
    main_run counter_randbelow one_per_second finds_nobody same_style
      unset_raises unset_raises [0; 1]%nat two_utterances
      = Raised AttributeError w' /\
    Segment.speakers_bbox (objects w' 0%nat) = None /\
    objects w' 1%nat = created 2 5.
Proof.
  destruct (main_run_stops_when_nobody_is_found counter_randbelow
              (fun n g Hn => Z.mod_pos_bound g n Hn)
              one_per_second finds_nobody same_style unset_raises unset_raises
              [] 0%nat [1%nat] two_utterances [frame4; frame4]
              (fun _ => Ok (None, None)))
    as (w' & k & kf & location & Hrun & _ & Hleft & _ & Hrest).
  - intros r Hr. by apply elem_of_nil in Hr.
  - exact same_style_styles_everything.
  - reflexivity.
  - discriminate.
  - reflexivity.
  - intros kf _. eexists. reflexivity.
  - exists w'. split; [exact Hrun|]. split.
    + rewrite Hleft. reflexivity.
    + apply (Hrest 1%nat); [apply not_elem_of_nil | discriminate].
Defined.

(** ** Splitting a batch, splitting the list of operations *)

(** Processing a batch is processing its first part and then, from the
    world this leaves, the rest; a raise in the first part ends the run
    before the rest is started.  On a single segment the same holds for
    the list of operations (on more than one segment it does not: the
    order is segment-major). *)
Theorem pipe_splits {W ref}
    (functions1 functions2 : list (operation W ref))
    (segments1 segments2 : list ref) (segment : ref) (w : W) :
  pipe functions1 (segments1 ++ segments2) w
  = match pipe functions1 segments1 w with
    | Returned _ w1 =>
        match pipe functions1 segments2 w1 with
        | Returned _ w2 => Returned (segments1 ++ segments2) w2
        | Raised e w2 => Raised e w2
        end
    | Raised e w1 => Raised e w1
    end /\
  pipe (functions1 ++ functions2) [segment] w
  = match pipe functions1 [segment] w with
    | Returned _ w1 => pipe functions2 [segment] w1
    | Raised e w1 => Raised e w1
    end.
Proof.
  split.
  - unfold pipe, pipeline, mbind, action_bind, mret, action_ret.
    rewrite for_each_app. unfold mbind, action_bind.
    destruct (for_each _ segments1 w) as [[] w1|e w1]; [|done].
    by destruct (for_each _ segments2 w1) as [[] w2|e w2].
  - unfold pipe, pipeline, mbind, action_bind, mret, action_ret.
    cbn [for_each]. unfold mbind, action_bind, mret, action_ret.
    rewrite for_each_app. unfold mbind, action_bind.
    destruct (for_each _ functions1 w) as [[] w1|e w1]; [|done].
    by destruct (for_each _ functions2 w1) as [[] w2|e w2].
Qed.

(** ** The window [crop_keyframe] selects *)

Section Window.
Implicit Types (kf : Np.ndarray) (b : BBox.t).

Lemma lookup_slice {A} start stop (l : list A) i :
  (i < slice_len start stop (length l))%nat ->
  slice start stop l !! i = l !! (slice_lo start (length l) + i)%nat.
Proof.
  intros Hi. unfold slice. rewrite lookup_take_lt by done. apply lookup_drop.
Qed.

(** Each pass is one slice; its lower bound is the origin on its axis. *)
Lemma horizontal_pass_slice b kf :
  exists start stop,
    horizontal_pass b kf = Np.getitem0 start stop kf /\
    slice_lo start (length (Np.rows kf)) = (crop_origin b kf).1.
Proof.
  unfold horizontal_pass, crop_origin. cbn [fst]. cbv zeta.
  destruct (gt_int _ _).
  - by exists None, (Some (int (BBox.x b + BBox.width b)%Q)).
  - by exists (Some (int (BBox.x b))), None.
Qed.

Lemma vertical_pass_slice b kf kf' :
  Np.dim1 kf' = Np.dim1 kf ->
  exists start stop,
    vertical_pass b kf' = Np.getitem1 start stop kf' /\
    slice_lo start (Np.dim1 kf') = (crop_origin b kf).2.
Proof.
  intros Hdim. unfold vertical_pass, crop_origin, Np.shape1.
  cbn [snd]. cbv zeta. rewrite Hdim.
  destruct (gt_int _ _).
  - by exists None, (Some (int (BBox.y b + BBox.height b)%Q)).
  - by exists (Some (int (BBox.y b))), None.
Qed.

Lemma dim1_horizontal_pass b kf :
  Np.dim1 (horizontal_pass b kf) = Np.dim1 kf.
Proof. unfold horizontal_pass. by destruct (gt_int _ _). Qed.

(** A position inside the crop holds the pixel the key frame has at that
    position shifted by the origin. *)
Lemma pixel_at_crop kf b i j :
  Np.wf kf ->
  (i < length (Np.rows (vertical_pass b (horizontal_pass b kf))))%nat ->
  (j < Np.dim1 (vertical_pass b (horizontal_pass b kf)))%nat ->
  pixel_at (vertical_pass b (horizontal_pass b kf)) i j
  = pixel_at kf ((crop_origin b kf).1 + i) ((crop_origin b kf).2 + j).
Proof.
  intros [Hrows _].
  destruct (horizontal_pass_slice b kf) as (s0 & e0 & Hh & <-).
  destruct (vertical_pass_slice b kf (horizontal_pass b kf)
              (dim1_horizontal_pass b kf)) as (s1 & e1 & Hv & <-).
  rewrite Hv, Hh. clear Hv Hh.
  unfold pixel_at. cbn [Np.rows Np.dim1 Np.getitem1 Np.getitem0].
  rewrite length_map, length_slice. intros Hi Hj.
  rewrite list_lookup_fmap, (lookup_slice _ _ _ _ Hi).
  destruct (Np.rows kf !! (slice_lo s0 (length (Np.rows kf)) + i)%nat)
    as [row|] eqn:Hrow; [|done].
  cbn [fmap option_fmap option_map mbind option_bind].
  pose proof (Forall_lookup_1 _ _ _ _ Hrows Hrow) as Hlen. cbn beta in Hlen.
  rewrite lookup_slice by (by rewrite Hlen). by rewrite Hlen.
Qed.

(** The crop is a window of the key frame.  For every key frame and
    every box, valid or not, each position of the output holds a pixel,
    namely the one the key frame holds at that position shifted by
    [crop_origin], and the window lies inside the frame: the crop neither
    moves pixels against each other nor makes any up. *)
Theorem crop_selects_a_window kf b i j :
  Np.wf kf ->
  (i < length (Np.rows (vertical_pass b (horizontal_pass b kf))))%nat ->
  (j < Np.dim1 (vertical_pass b (horizontal_pass b kf)))%nat ->
  exists p,
    pixel_at (vertical_pass b (horizontal_pass b kf)) i j = Some p /\
    pixel_at kf ((crop_origin b kf).1 + i) ((crop_origin b kf).2 + j) = Some p /\
    ((crop_origin b kf).1 + i < length (Np.rows kf))%nat /\
    ((crop_origin b kf).2 + j < Np.dim1 kf)%nat.
Proof.
  intros Hwf Hi Hj.
  pose proof (pixel_at_crop kf b i j Hwf Hi Hj) as Heq.
  assert (Np.wf (vertical_pass b (horizontal_pass b kf))) as [Hout _].
  { unfold vertical_pass, horizontal_pass.
    repeat destruct (gt_int _ _); by apply getitem1_wf, getitem0_wf. }
  destruct (lookup_lt_is_Some_2 _ _ Hi) as [row Hrow].
  pose proof (Forall_lookup_1 _ _ _ _ Hout Hrow) as Hlen. cbn beta in Hlen.
  destruct (lookup_lt_is_Some_2 row j) as [p Hp]; [by rewrite Hlen|].
  assert (pixel_at (vertical_pass b (horizontal_pass b kf)) i j = Some p)
    as Hpix.
  { unfold pixel_at. rewrite Hrow. exact Hp. }
  exists p. split; [done|]. rewrite Heq in Hpix. split; [done|].
  unfold pixel_at in Hpix.
  destruct (Np.rows kf !! ((crop_origin b kf).1 + i)%nat) as [row'|] eqn:Hrow';
    [|done].
  cbn [mbind option_bind] in Hpix. destruct Hwf as [Hrows _].
  pose proof (Forall_lookup_1 _ _ _ _ Hrows Hrow') as Hlen'. cbn beta in Hlen'.
  split.
  - by eapply lookup_lt_Some.
  - rewrite <- Hlen'. by eapply lookup_lt_Some.
Qed.

End Window.

Section BoxKept.
Implicit Types (kf : Np.ndarray) (b : BBox.t).

(** How many rows and columns the crop has. *)
Lemma crop_rows b kf :
  length (Np.rows (vertical_pass b (horizontal_pass b kf)))
  = if gt_int (BBox.center b).1 (floordiv (Np.shape0 kf) 2)
    then adjust (int (BBox.x b + BBox.width b)%Q) (length (Np.rows kf))
    else (length (Np.rows kf)
          - adjust (int (BBox.x b)) (length (Np.rows kf)))%nat.
Proof.
  pose proof (shape0_vertical_pass b (horizontal_pass b kf)) as Hv.
  unfold Np.shape0 in Hv. apply Nat2Z.inj in Hv. rewrite Hv.
  unfold horizontal_pass. cbv zeta.
  destruct (gt_int _ _); cbn [Np.rows Np.getitem0]; rewrite length_slice;
    unfold slice_len, slice_hi, slice_lo; lia.
Qed.

Lemma crop_columns b kf :
  Np.dim1 (vertical_pass b (horizontal_pass b kf))
  = if gt_int (BBox.center b).2 (floordiv (Np.shape1 kf) 2)
    then adjust (int (BBox.y b + BBox.height b)%Q) (Np.dim1 kf)
    else (Np.dim1 kf - adjust (int (BBox.y b)) (Np.dim1 kf))%nat.
Proof.
  unfold vertical_pass. cbv zeta. rewrite shape1_horizontal_pass.
  destruct (gt_int _ _); cbn [Np.dim1 Np.getitem1];
    rewrite dim1_horizontal_pass; unfold slice_len, slice_hi, slice_lo; lia.
Qed.

(** The crop never cuts into a valid box: every pixel of the key frame
    at a position inside the box (rows [int(x) .. int(x + width) - 1],
    columns [int(y) .. int(y + height) - 1]) is in the output, at that
    position shifted back by [crop_origin].  The box itself is not
    shifted: [speakers_bbox] keeps the coordinates it had in the key
    frame before the crop. *)
Theorem crop_keeps_the_box kf b (i j : nat) :
  Np.wf kf ->
  valid_bbox b kf ->
  int (BBox.x b) <= Z.of_nat i < int (BBox.x b + BBox.width b)%Q ->
  int (BBox.y b) <= Z.of_nat j < int (BBox.y b + BBox.height b)%Q ->
  ((crop_origin b kf).1 <= i)%nat /\
  ((crop_origin b kf).2 <= j)%nat /\
  exists p,
    pixel_at kf i j = Some p /\
    pixel_at (vertical_pass b (horizontal_pass b kf))
      (i - (crop_origin b kf).1) (j - (crop_origin b kf).2)
    = Some p.
Proof.
  intros Hwf (Hx & Hy & Hw & Hh & Hxw & Hyh) Hi Hj.
  assert (0 <= int (BBox.x b) /\
          int (BBox.x b + BBox.width b)%Q <= Z.of_nat (length (Np.rows kf)))
    as [Hx0 Hx1].
  { split; [by apply int_nonneg | apply int_le; [lra|done]]. }
  assert (0 <= int (BBox.y b) /\
          int (BBox.y b + BBox.height b)%Q <= Z.of_nat (Np.dim1 kf))
    as [Hy0 Hy1].
  { split; [by apply int_nonneg | apply int_le; [lra|done]]. }
  assert ((crop_origin b kf).1 <= i /\
          i - (crop_origin b kf).1
          < length (Np.rows (vertical_pass b (horizontal_pass b kf))))%nat
    as [Hoi Hi'].
  { rewrite crop_rows. unfold crop_origin. cbn [fst].
    destruct (gt_int _ _).
    - rewrite adjust_in_range by lia. lia.
    - rewrite adjust_in_range by lia. lia. }
  assert ((crop_origin b kf).2 <= j /\
          j - (crop_origin b kf).2
          < Np.dim1 (vertical_pass b (horizontal_pass b kf)))%nat
    as [Hoj Hj'].
  { rewrite crop_columns. unfold crop_origin. cbn [snd].
    destruct (gt_int _ _).
    - rewrite adjust_in_range by lia. lia.
    - rewrite adjust_in_range by lia. lia. }
  split; [done|]. split; [done|].
  rewrite (pixel_at_crop kf b _ _ Hwf Hi' Hj').
  replace ((crop_origin b kf).1 + (i - (crop_origin b kf).1))%nat with i by lia.
  replace ((crop_origin b kf).2 + (j - (crop_origin b kf).2))%nat with j by lia.
  destruct Hwf as [Hrows _]. unfold pixel_at.
  destruct (lookup_lt_is_Some_2 (Np.rows kf) i) as [row Hrow]; [lia|].
  pose proof (Forall_lookup_1 _ _ _ _ Hrows Hrow) as Hlen. cbn beta in Hlen.
  destruct (lookup_lt_is_Some_2 row j) as [p Hp]; [lia|].
  exists p. rewrite Hrow. by cbn [mbind option_bind].
Qed.

End BoxKept.

Lemma frame4_wf : Np.wf frame4.
Proof. split; repeat constructor. Defined.

Lemma crop_selects_a_window_witness :
  exists p,
    pixel_at (vertical_pass bbox_near (horizontal_pass bbox_near frame4))
      0%nat 0%nat = Some p /\
    pixel_at frame4 1%nat 1%nat = Some p.
Proof.
  destruct (crop_selects_a_window frame4 bbox_near 0%nat 0%nat frame4_wf)
    as (p & Hout & Hin & _); [vm_compute; lia | vm_compute; lia |].
  exists p. split; [exact Hout | exact Hin].
Defined.

Lemma crop_keeps_the_box_witness :
  exists p,
    pixel_at frame4 2%nat 2%nat = Some p /\
    pixel_at (vertical_pass bbox_far (horizontal_pass bbox_far frame4))
      2%nat 2%nat = Some p.
Proof.
  destruct (crop_keeps_the_box frame4 bbox_far 2%nat 2%nat frame4_wf)
    as (_ & _ & p & Hin & Hout); [by_evaluation | by_evaluation | by_evaluation |].
  exists p. split; [exact Hin | exact Hout].
Defined.
